(** * bt10.py: the queue consumer of the WU-BT10 BLE-MIDI recorder

    A shallow embedding of [run_queue_consumer] (src/bt10.py, lines 61-157):
    the extraction of the 4-byte event groups of a notification, the
    reconstruction of the event time from the 13-bit device clock and the
    host arrival time, the pairing of note-on with note-off, and the two
    outputs (the MIDI port and the MIDI file).

    Numbers.  Bytes are [Byte.byte]; Python integers are [Z].  The arrival
    time [T_elapsed] is a Python float (milliseconds); it is modelled as an
    exact rational [Q], with [//] as the floor of the quotient and [%] as
    the remainder of that floor.  Rounding of binary64 is not modelled; on
    the integer-valued times of the examples below the event times that the
    program computes are exact (only the quotients by [quarter()] are
    rounded), so these examples are runs of the program.

    The world.  The tempo [bpm] is any Python integer, as [argparse] gives
    it: [quarter()] raises [ZeroDivisionError] when it is 0 and is negative
    when it is negative.  Whether [open(file_name + ".mid", "wb")] succeeds
    is an input, [writable]; when it does not, [OSError] is raised after
    the port is closed.  A consumer that waits in [queue.get()] when [main]
    is left is cancelled.  The three libraries ([bleak], [rtmidi],
    [midiutil]) have no source here: each of their calls is recorded with
    its arguments and taken to return, whatever the arguments are (a tempo
    of 0, a negative duration), and so are the writes of [writeFile] on the
    open file. *)

From Stdlib Require Import String Strings.Byte ZArith QArith Qabs Qround Bool List.
From Stdlib Require Import Lia Lqa.
Import ListNotations.

Local Open Scope Z_scope.

(** ** Python primitives *)

Module Py.

(** The value of an element of a [bytes] object. *)
Definition byte_int (b : byte) : Z := Z.of_N (Byte.to_N b).

(** [bytes([n])] for [0 <= n < 256]; used to write payloads down. *)
Definition chr (n : Z) : byte :=
  match Byte.of_N (Z.to_N n) with
  | Some b => b
  | None => x00
  end.

Definition bytes (l : list Z) : list byte := map chr l.

(** [x // m] on floats. *)
Definition floordiv (x m : Q) : Z := Qfloor (x / m).

(** [x % m] on floats, for a positive [m]. *)
Definition mod_ (x m : Q) : Q := (x - m * inject_Z (floordiv x m))%Q.

(** [range(start, stop, step)] for a positive [step]. *)
Definition range (start stop step : nat) : list nat :=
  map (fun k => start + step * k)%nat
      (seq 0 ((stop - start + step - 1) / step)).

(** [x < y] and [x == y] on floats. *)
Definition ltb (x y : Q) : bool := negb (Qle_bool y x).
Definition eqb (x y : Q) : bool := Qeq_bool x y.

(** The exceptions of the builtins that the program uses: [data[i]], [/],
    [open] and [await]. *)
Inductive exn : Set := IndexError | ZeroDivisionError | OSError | CancelledError.

Inductive outcome (A : Type) : Type :=
| Normal (a : A)
| Raised (e : exn).
Arguments Normal {A} a.
Arguments Raised {A} e.

(** [x / y] on floats. *)
Definition truediv (x y : Q) : outcome Q :=
  if eqb y 0 then Raised ZeroDivisionError else Normal (x / y)%Q.

End Py.
Export Py.

(** ** The state of the consumer *)

(** What [logger] receives.  One constructor per call site. *)
Inductive LogRecord : Type :=
| LogStarting
| LogOpening
| LogDisconnect
| LogUnmatchedOn (n : nat)
| LogReceived (T_elapsed : Q) (data : list byte)
| LogCannotParse (len : nat)
| LogTimeError (N : Z) (DT : Q) (T_packet : Z)
| LogUnmatchedOff (pitch : Z) (T_event : Q)
| LogDupNoteOn (pitch : Z) (T_on T_event : Q) (V_on V : Z).

Inductive Level : Set := DEBUG | INFO.

Definition level (r : LogRecord) : Level :=
  match r with
  | LogReceived _ _ | LogTimeError _ _ _ => DEBUG
  | _ => INFO
  end.

(** The calls made on the [MIDIFile] object, in order: the Timeline. *)
Inductive FileEvent : Type :=
| TrackName (track : Z) (time : Z) (name : string)
| Tempo (track : Z) (time : Z) (tempo : Z)
| Note (track channel pitch : Z) (time duration : Q) (volume : Z)
| ControllerEvent (track channel : Z) (time : Q) (controller parameter : Z).

(** An element of [E_ON]: the list [[T_event, pitch, velocity]]. *)
Definition NoteOn : Type := (Q * Z * Z)%type.

Definition ev0 (ev : NoteOn) : Q := fst (fst ev).
Definition ev1 (ev : NoteOn) : Z := snd (fst ev).
Definition ev2 (ev : NoteOn) : Z := snd ev.

Record Consumer : Type := mkConsumer {
  T_cycle0 : Q;                          (* start of the first cycle; 0 = not set *)
  E_ON : list NoteOn;                    (* pending note-on events *)
  midi_file : list FileEvent;            (* the MIDIFile object *)
  midi_out : list (list Z);              (* messages sent to port 0 *)
  port_open : bool;
  disk : option (list FileEvent);        (* file_name + ".mid" *)
  logged : list LogRecord;
}.

(** ** A state monad in which an exception keeps the mutations made so far *)

Definition M (A : Type) : Type := Consumer -> outcome A * Consumer.

Definition ret {A} (a : A) : M A := fun st => (Normal a, st).

Definition bind {A B} (c : M A) (k : A -> M B) : M B :=
  fun st =>
    match c st with
    | (Normal a, st') => k a st'
    | (Raised e, st') => (Raised e, st')
    end.

Declare Scope py_scope.
Delimit Scope py_scope with py.
Notation "x <- c ;; k" := (bind c (fun x => k))
  (at level 61, c at next level, right associativity) : py_scope.
Notation "c ;; k" := (bind c (fun _ => k))
  (at level 61, right associativity) : py_scope.
Local Open Scope py_scope.

(** An expression that may raise and does not touch the state. *)
Definition lift {A} (o : outcome A) : M A := fun st => (o, st).

Definition gets {A} (f : Consumer -> A) : M A := fun st => (Normal (f st), st).
Definition modify (f : Consumer -> Consumer) : M unit := fun st => (Normal tt, f st).

(** [data[i]] *)
Definition getitem (data : list byte) (i : nat) : M Z :=
  fun st =>
    match nth_error data i with
    | Some b => (Normal (byte_int b), st)
    | None => (Raised IndexError, st)
    end.

Definition set_T_cycle0 (t : Q) : M unit :=
  modify (fun st => mkConsumer t (E_ON st) (midi_file st) (midi_out st)
                               (port_open st) (disk st) (logged st)).

Definition set_E_ON (l : list NoteOn) : M unit :=
  modify (fun st => mkConsumer (T_cycle0 st) l (midi_file st) (midi_out st)
                               (port_open st) (disk st) (logged st)).

Definition midi_file_add (e : FileEvent) : M unit :=
  modify (fun st => mkConsumer (T_cycle0 st) (E_ON st) (midi_file st ++ [e])
                               (midi_out st) (port_open st) (disk st) (logged st)).

(** [midi_out.send_message(m)] *)
Definition send_message (m : list Z) : M unit :=
  modify (fun st => mkConsumer (T_cycle0 st) (E_ON st) (midi_file st)
                               (midi_out st ++ [m]) (port_open st) (disk st) (logged st)).

Definition close_port : M unit :=
  modify (fun st => mkConsumer (T_cycle0 st) (E_ON st) (midi_file st)
                               (midi_out st) false (disk st) (logged st)).

(** [open(file_name + ".mid", "wb")]: the file is created or emptied, or
    [OSError] is raised. *)
Definition open_wb (writable : bool) : M unit :=
  if writable
  then modify (fun st => mkConsumer (T_cycle0 st) (E_ON st) (midi_file st)
                                    (midi_out st) (port_open st) (Some []) (logged st))
  else lift (Raised OSError).

Definition writeFile : M unit :=
  modify (fun st => mkConsumer (T_cycle0 st) (E_ON st) (midi_file st)
                               (midi_out st) (port_open st) (Some (midi_file st)) (logged st)).

Definition logger (r : LogRecord) : M unit :=
  modify (fun st => mkConsumer (T_cycle0 st) (E_ON st) (midi_file st)
                               (midi_out st) (port_open st) (disk st) (logged st ++ [r])).

(** [E_ON.pop(i)] for an index in range. *)
Fixpoint pop {A} (i : nat) (l : list A) : list A :=
  match l, i with
  | [], _ => []
  | _ :: l', O => l'
  | x :: l', S i' => x :: pop i' l'
  end.

(** ** The body of [run_queue_consumer] *)

Section Consumer.

(** The module globals [bpm] and [file_name], and whether the file can be
    opened for writing. *)
Variable bpm : Z.
Variable file_name : string.
Variable writable : bool.

(** [quarter()]: the length of a quarter note in milliseconds. *)
Definition quarter : M Q := lift (Py.truediv (1000 * 60) (inject_Z bpm)).

(** What [quarter()] returns when the tempo is not 0. *)
Definition quarter_ms : Q := (1000 * 60 / inject_Z bpm)%Q.

(** *** The clock of the packet (lines 102-106) *)

(** [if(low < low0): high += 1] *)
Definition rollover (high low0 low : Z) : Z :=
  if low <? low0 then high + 1 else high.

(** [high << 7 | low] *)
Definition clock (high low : Z) : Z := Z.lor (Z.shiftl high 7) low.

(** *** The time of the event (lines 107-121)

    From the value of [T_cycle0] and [N] before the group, the arrival time
    of the packet and the clock of the group: the values of [T_cycle0], [N],
    [DT], [M] and [T_event] after line 121. *)

Record Times : Type := mkTimes {
  tm_cycle0 : Q;
  tm_N : Z;
  tm_DT : Q;
  tm_M : Z;
  tm_event : Q;
}.

Definition time_error (DT : Q) (T_packet : Z) : bool :=
  Py.ltb 4096 (Qabs (DT - inject_Z T_packet)).

Definition event_time (T_cycle0 : Q) (N : Z) (T_elapsed : Q) (T_packet : Z) : Times :=
  let first := Py.eqb T_cycle0 0 in
  let T_cycle0 := if first then (T_elapsed - inject_Z T_packet)%Q else T_cycle0 in
  let N := if first then N else Py.floordiv (T_elapsed - T_cycle0) 8192 in
  let DT := Py.mod_ (T_elapsed - T_cycle0) 8192 in
  let M :=
    if time_error DT T_packet
    then if Py.ltb DT (inject_Z T_packet) then N - 1 else N + 1
    else N in
  mkTimes T_cycle0 N DT M (T_cycle0 + 8192 * inject_Z M + inject_Z T_packet)%Q.

(** *** The three kinds of event (lines 129-154) *)

(** The scan of [E_ON] for the note-on of a note-off (lines 131-138); [i] is
    the index of the head of [l] in [E_ON].  Returns [count]. *)
Fixpoint note_off_scan (data : list byte) (a : nat) (T_event : Q)
    (i : nat) (l : list NoteOn) : M Z :=
  match l with
  | [] => ret 0
  | ev :: l' =>
      p <- getitem data (a + 2) ;;
      if ev1 ev =? p then
        p <- getitem data (a + 2) ;;
        v <- getitem data (a + 3) ;;
        send_message [128; p; v] ;;
        c <- getitem data (a + 1) ;;
        q <- quarter ;;
        time <- lift (Py.truediv (ev0 ev) q) ;;
        q <- quarter ;;
        duration <- lift (Py.truediv (T_event - ev0 ev) q) ;;
        midi_file_add (Note 0 (Z.land c 15) (ev1 ev) time duration (ev2 ev)) ;;
        E <- gets E_ON ;;
        set_E_ON (pop i E) ;;
        ret 1
      else note_off_scan data a T_event (S i) l'
  end.

Definition note_off (data : list byte) (a : nat) (T_event : Q) : M unit :=
  E <- gets E_ON ;;
  count <- note_off_scan data a T_event 0 E ;;
  if count =? 0 then
    p <- getitem data (a + 2) ;;
    logger (LogUnmatchedOff p T_event)
  else ret tt.

(** The check for a pending note of the same pitch (lines 144-147).
    [dup] is the count so far; returns its final value. *)
Fixpoint note_on_scan (data : list byte) (a : nat) (T_event : Q)
    (l : list NoteOn) (dup : Z) : M Z :=
  match l with
  | [] => ret dup
  | ee :: l' =>
      p <- getitem data (a + 2) ;;
      if ev1 ee =? p then
        v <- getitem data (a + 3) ;;
        logger (LogDupNoteOn (ev1 ee) (ev0 ee) T_event (ev2 ee) v) ;;
        note_on_scan data a T_event l' (dup + 1)
      else note_on_scan data a T_event l' dup
  end.

Definition note_on (data : list byte) (a : nat) (T_event : Q) : M unit :=
  E <- gets E_ON ;;
  dup <- note_on_scan data a T_event E 0 ;;
  if dup =? 0 then
    p <- getitem data (a + 2) ;;
    v <- getitem data (a + 3) ;;
    send_message [144; p; v] ;;
    p <- getitem data (a + 2) ;;
    v <- getitem data (a + 3) ;;
    E <- gets E_ON ;;
    set_E_ON (E ++ [(T_event, p, v)])
  else ret tt.

Definition controller (data : list byte) (a : nat) (T_event : Q) : M unit :=
  p <- getitem data (a + 2) ;;
  v <- getitem data (a + 3) ;;
  send_message [176; p; v] ;;
  c <- getitem data (a + 1) ;;
  q <- quarter ;;
  time <- lift (Py.truediv T_event q) ;;
  p <- getitem data (a + 2) ;;
  v <- getitem data (a + 3) ;;
  midi_file_add (ControllerEvent 0 (Z.land c 15) time p v).

(** [match status] (lines 127-157) *)
Definition dispatch (data : list byte) (a : nat) (T_event : Q) : M unit :=
  s <- getitem data (a + 1) ;;
  let status := Z.land s 240 in
  if status =? 128 then note_off data a T_event
  else if status =? 144 then note_on data a T_event
  else if status =? 176 then controller data a T_event
  else ret tt.

(** *** One 4-byte group (lines 102-157)

    The locals that live across the iterations of the [for] loop. *)
Record Locals : Type := mkLocals {
  high : Z;
  low0 : Z;
  N_cycle : Z;                            (* the local [N] *)
}.

(** What one iteration computed: the arrival time of its packet and the
    values of [T_packet] and [T_event]. *)
Record Stamp : Type := mkStamp {
  s_elapsed : Q;
  s_packet : Z;
  s_event : Q;
}.

(** Lines 107-121 on the state. *)
Definition stamp (T_elapsed : Q) (T_packet : Z) (N : Z) : M Times :=
  T0 <- gets T_cycle0 ;;
  let tm := event_time T0 N T_elapsed T_packet in
  set_T_cycle0 (tm_cycle0 tm) ;;
  (if time_error (tm_DT tm) T_packet
   then logger (LogTimeError (tm_N tm) (tm_DT tm) T_packet)
   else ret tt) ;;
  ret tm.

(** The body of the [for] loop.  Besides the locals it returns the stamp
    of the iteration. *)
Definition group (T_elapsed : Q) (data : list byte) (a : nat) (loc : Locals)
    : M (Locals * Stamp) :=
  d <- getitem data a ;;
  let low := Z.land d 127 in
  let high := rollover (high loc) (low0 loc) low in
  let T_packet := clock high low in
  let low0 := low in
  tm <- stamp T_elapsed T_packet (N_cycle loc) ;;
  let T_event := tm_event tm in
  let r := (mkLocals high low0 (tm_N tm), mkStamp T_elapsed T_packet T_event) in
  c <- getitem data (1 + a) ;;
  let channel := Z.land c 15 in
  if negb (channel =? 0) then ret r
  else dispatch data a T_event ;; ret r.

(** The [for] loop over the groups. *)
Fixpoint for_groups (T_elapsed : Q) (data : list byte) (l : list nat)
    (loc : Locals) : M (Locals * list Stamp) :=
  match l with
  | [] => ret (loc, [])
  | a :: l' =>
      r <- group T_elapsed data a loc ;;
      r' <- for_groups T_elapsed data l' (fst r) ;;
      ret (fst r', snd r :: snd r')
  end.

(** *** One message of the queue (lines 78-157) *)

Definition Message : Type := (Q * option (list byte))%type.

(** What the [while] loop does after a message. *)
Inductive Next : Set := Continue | Break.

(** The [else] branch of line 90: a notification. *)
Definition packet (T_elapsed : Q) (data : list byte) : M (list Stamp) :=
  logger (LogReceived T_elapsed data) ;;
  let ss := Z.land (Z.of_nat (length data) - 1) 3 in
  if negb (ss =? 0) then
    logger (LogCannotParse (length data)) ;;
    ret []
  else
    h <- getitem data 0 ;;
    let high := Z.land h 63 in
    l <- getitem data 1 ;;
    let low0 := Z.land l 127 in
    let N := 0 in
    r <- for_groups T_elapsed data (Py.range 1 (length data - 1) 4)
                    (mkLocals high low0 N) ;;
    ret (snd r).

(** The [if] branch of line 79: the end of the session. *)
Definition disconnect : M unit :=
  logger LogDisconnect ;;
  close_port ;;
  E <- gets E_ON ;;
  (if negb (length E =? 0)%nat then logger (LogUnmatchedOn (length E)) else ret tt) ;;
  open_wb writable ;;
  writeFile.

Definition message (m : Message) : M (Next * list Stamp) :=
  match snd m with
  | None => disconnect ;; ret (Break, [])
  | Some data => tr <- packet (fst m) data ;; ret (Continue, tr)
  end.

(** *** The [while] loop on the messages of the queue *)

(** How the coroutine stands when the messages given are used up: waiting
    in [queue.get()], returned after the end-of-session message, or left by
    an exception. *)
Inductive Status : Set := Waiting | Returned | Failed (e : exn).

(** The result: the status, the clock and time of every group of every
    packet that was processed to its end, and the state. *)
Fixpoint while_true (q : list Message) (st : Consumer)
    : Status * list Stamp * Consumer :=
  match q with
  | [] => (Waiting, [], st)
  | m :: q' =>
      match message m st with
      | (Normal (Break, tr), st') => (Returned, tr, st')
      | (Normal (Continue, tr), st') =>
          let '(s, tr', st'') := while_true q' st' in (s, tr ++ tr', st'')
      | (Raised e, st') => (Failed e, [], st')
      end
  end.

(** The state at line 76, before the first message. *)
Definition start : Consumer :=
  mkConsumer 0 [] [TrackName 0 0 file_name; Tempo 0 0 bpm] [] true None
             [LogStarting; LogOpening].

Definition run_queue_consumer (q : list Message) : Status * list Stamp * Consumer :=
  while_true q start.

End Consumer.

Arguments quarter_ms bpm : simpl never.

(** What [asyncio.run] does to a task that still waits when [main] is left:
    [CancelledError] is raised in it at line 78. *)
Definition cancel (r : Status * list Stamp * Consumer) : Status * list Stamp * Consumer :=
  match r with
  | (Waiting, tr, st) => (Failed CancelledError, tr, st)
  | _ => r
  end.

(** ** The Timestamp Unwrapper on a sequence of sub-events

    Lines 107-121 applied to one sub-event after the other, each given by
    the arrival time of its packet and its clock, from a value of
    [T_cycle0].  [N] is 0 as at the head of a packet; it is read only while
    [T_cycle0] is 0. *)
Fixpoint unwrapper (T_cycle0 : Q) (evs : list (Q * Z)) : list Times :=
  match evs with
  | [] => []
  | (T_elapsed, T_packet) :: evs' =>
      let tm := event_time T_cycle0 0 T_elapsed T_packet in
      tm :: unwrapper (tm_cycle0 tm) evs'
  end.

(** The value of [T_cycle0] after these sub-events. *)
Fixpoint cycle0_after (T_cycle0 : Q) (evs : list (Q * Z)) : Q :=
  match evs with
  | [] => T_cycle0
  | (T_elapsed, T_packet) :: evs' =>
      cycle0_after (tm_cycle0 (event_time T_cycle0 0 T_elapsed T_packet)) evs'
  end.

Definition timestamps (evs : list (Q * Z)) : list Q :=
  map tm_event (unwrapper 0 evs).

(** The sub-events of a trace of the consumer. *)
Definition inputs (tr : list Stamp) : list (Q * Z) :=
  map (fun s => (s_elapsed s, s_packet s)) tr.

Definition events (tr : list Stamp) : list Q := map s_event tr.

Definition clocks (tr : list Stamp) : list Z := map s_packet tr.

(** ** The algorithm of the Timestamp Unwrapper in the words of the
    specification (section 4.1) *)

Module Spec.

(** Step 1: the wrap count from host time. *)
Definition N (epoch arrival_time : Q) : Z :=
  Py.floordiv (arrival_time - epoch) 8192.

(** Step 2: the expected local-clock remainder. *)
Definition DT (epoch arrival_time : Q) : Q :=
  Py.mod_ (arrival_time - epoch) 8192.

(** Steps 3 and 4. *)
Definition timestamp (epoch arrival_time : Q) (local_clock : Z) : Q :=
  let n := N epoch arrival_time in
  let dt := DT epoch arrival_time in
  let n :=
    if Py.ltb 4096 (Qabs (dt - inject_Z local_clock))
    then if Py.ltb dt (inject_Z local_clock) then n - 1 else n + 1
    else n in
  (epoch + 8192 * inject_Z n + inject_Z local_clock)%Q.

(** The epoch fixed on the first sub-event. *)
Definition epoch (evs : list (Q * Z)) : Q :=
  match evs with
  | [] => 0
  | (arrival_time, local_clock) :: _ => (arrival_time - inject_Z local_clock)%Q
  end.

(** The timestamps of the sub-events after the first. *)
Definition subsequent (evs : list (Q * Z)) : list Q :=
  map (fun e => timestamp (epoch evs) (fst e) (snd e)) (tl evs).

End Spec.

(** ** Sessions seen from the device

    For every sub-event of a session, the arrival time of its packet on the
    host and the time of the device, not wrapped. *)
Definition Scenario : Type := list (Q * Z).

(** What the device sends: the time of the device wrapped to 13 bits. *)
Definition sub_events (sc : Scenario) : list (Q * Z) :=
  map (fun e => (fst e, snd e mod 8192)) sc.

Fixpoint nondecreasing (l : list Q) : bool :=
  match l with
  | x :: (y :: _) as l' => Qle_bool x y && nondecreasing l'
  | _ => true
  end.

Fixpoint nondecreasingZ (l : list Z) : bool :=
  match l with
  | x :: (y :: _) as l' => (x <=? y) && nondecreasingZ l'
  | _ => true
  end.

(** Host and device differ by less than 4096 ms over every gap between two
    consecutive sub-events. *)
Fixpoint gap_drift_bounded (sc : Scenario) : bool :=
  match sc with
  | e1 :: (e2 :: _) as sc' =>
      Py.ltb (Qabs ((fst e2 - fst e1) - inject_Z (snd e2 - snd e1))) 4096
      && gap_drift_bounded sc'
  | _ => true
  end.

(** Host and device differ by less than 4096 ms at every sub-event, both
    measured from the first sub-event. *)
Definition offset_bounded (epoch : Q) (sc : Scenario) : bool :=
  forallb (fun e => Py.ltb (Qabs (fst e - epoch - inject_Z (snd e))) 4096) sc.

(** ** The notes of the Timeline *)

Definition duration_ok (e : FileEvent) : bool :=
  match e with
  | Note _ _ _ _ duration _ => Qle_bool 0 duration
  | _ => true
  end.

(** ** Two consumers in one event loop

    A coroutine is resumed when a message of its queue is there and runs to
    its next [await queue.get()].  [sched] tells which of the two is resumed
    next. *)
Record Instance : Type := mkInstance {
  i_status : Status;
  i_state : Consumer;
  i_queue : list Message;
}.

Section Instances.

Variable bpm : Z.
Variable file_name : string.
Variable writable : bool.

Definition spawn (q : list Message) : Instance :=
  mkInstance Waiting (start bpm file_name) q.

Definition resume (i : Instance) : Instance :=
  match i_status i, i_queue i with
  | Waiting, m :: q' =>
      match message bpm writable m (i_state i) with
      | (Normal (Break, _), st') => mkInstance Returned st' q'
      | (Normal (Continue, _), st') => mkInstance Waiting st' q'
      | (Raised e, st') => mkInstance (Failed e) st' q'
      end
  | _, _ => i
  end.

Fixpoint event_loop (sched : list bool) (a b : Instance) : Instance * Instance :=
  match sched with
  | [] => (a, b)
  | true :: sched' => event_loop sched' (resume a) b
  | false :: sched' => event_loop sched' a (resume b)
  end.

End Instances.

(** ** One group, by cases

    The values that one iteration of the [for] loop computes from the byte
    [d] at index [a], and what it does to the state. *)

Definition next_clock (loc : Locals) (d : Z) : Z :=
  clock (rollover (high loc) (low0 loc) (Z.land d 127)) (Z.land d 127).

Definition next_times (st : Consumer) (loc : Locals) (T_elapsed : Q) (d : Z) : Times :=
  event_time (T_cycle0 st) (N_cycle loc) T_elapsed (next_clock loc d).

Definition next_locals (loc : Locals) (d : Z) (tm : Times) : Locals :=
  mkLocals (rollover (high loc) (low0 loc) (Z.land d 127)) (Z.land d 127) (tm_N tm).

(** The state after a call of [logger] and nothing else. *)
Definition with_log (st : Consumer) (r : LogRecord) : Consumer :=
  mkConsumer (T_cycle0 st) (E_ON st) (midi_file st) (midi_out st)
    (port_open st) (disk st) (logged st ++ [r]).

(** The state after lines 107-121. *)
Definition stamped (st : Consumer) (tm : Times) (T_packet : Z) : Consumer :=
  mkConsumer (tm_cycle0 tm) (E_ON st) (midi_file st) (midi_out st)
    (port_open st) (disk st)
    (if time_error (tm_DT tm) T_packet
     then logged st ++ [LogTimeError (tm_N tm) (tm_DT tm) T_packet]
     else logged st).

Section Dispatched.

Variable bpm : Z.

(** The state after lines 127-157, for the status byte [s] and the data
    bytes [p] and [v] of a group of channel 0. *)
Inductive Dispatched (s p v : Z) (T_event : Q) (st : Consumer) : Consumer -> Prop :=
| D_note_off (l1 l2 : list NoteOn) (ev : NoteOn) :
    Z.land s 240 = 128 ->
    E_ON st = l1 ++ ev :: l2 ->
    Forall (fun x => ev1 x <> p) l1 ->
    ev1 ev = p ->
    Dispatched s p v T_event st
      (mkConsumer (T_cycle0 st) (l1 ++ l2)
         (midi_file st ++
            [Note 0 (Z.land s 15) (ev1 ev) (ev0 ev / quarter_ms bpm)
                  ((T_event - ev0 ev) / quarter_ms bpm) (ev2 ev)])
         (midi_out st ++ [[128; p; v]])
         (port_open st) (disk st) (logged st))
| D_unmatched_note_off :
    Z.land s 240 = 128 ->
    Forall (fun x => ev1 x <> p) (E_ON st) ->
    Dispatched s p v T_event st
      (mkConsumer (T_cycle0 st) (E_ON st) (midi_file st) (midi_out st)
         (port_open st) (disk st)
         (logged st ++ [LogUnmatchedOff p T_event]))
| D_note_on :
    Z.land s 240 = 144 ->
    Forall (fun x => ev1 x <> p) (E_ON st) ->
    Dispatched s p v T_event st
      (mkConsumer (T_cycle0 st) (E_ON st ++ [(T_event, p, v)])
         (midi_file st) (midi_out st ++ [[144; p; v]])
         (port_open st) (disk st) (logged st))
| D_duplicate_note_on :
    Z.land s 240 = 144 ->
    Exists (fun x => ev1 x = p) (E_ON st) ->
    Dispatched s p v T_event st
      (mkConsumer (T_cycle0 st) (E_ON st) (midi_file st) (midi_out st)
         (port_open st) (disk st)
         (logged st ++
            map (fun ee => LogDupNoteOn (ev1 ee) (ev0 ee) T_event (ev2 ee) v)
                (filter (fun ee => ev1 ee =? p) (E_ON st))))
| D_controller :
    Z.land s 240 = 176 ->
    Dispatched s p v T_event st
      (mkConsumer (T_cycle0 st) (E_ON st)
         (midi_file st ++
            [ControllerEvent 0 (Z.land s 15) (T_event / quarter_ms bpm) p v])
         (midi_out st ++ [[176; p; v]])
         (port_open st) (disk st) (logged st))
| D_other :
    Z.land s 240 <> 128 -> Z.land s 240 <> 144 -> Z.land s 240 <> 176 ->
    Dispatched s p v T_event st st.

(** One iteration of the [for] loop on a group within the payload: the
    locals and the state before, the locals, the stamp and the state
    after. *)
Inductive Grouped (T_elapsed : Q) (loc : Locals) (st : Consumer)
    : Locals -> Stamp -> Consumer -> Prop :=
| G_skipped (d : Z) :
    let tm := next_times st loc T_elapsed d in
    Grouped T_elapsed loc st (next_locals loc d tm)
      (mkStamp T_elapsed (next_clock loc d) (tm_event tm))
      (stamped st tm (next_clock loc d))
| G_dispatched (d s p v : Z) (st' : Consumer) :
    let tm := next_times st loc T_elapsed d in
    Z.land s 15 = 0 ->
    Dispatched s p v (tm_event tm) (stamped st tm (next_clock loc d)) st' ->
    Grouped T_elapsed loc st (next_locals loc d tm)
      (mkStamp T_elapsed (next_clock loc d) (tm_event tm)) st'.

(** The iterations of the [for] loop of a packet, one after the other. *)
Inductive Iterated (T_elapsed : Q) (loc : Locals) (st : Consumer)
    : list Stamp -> Locals -> Consumer -> Prop :=
| I_done : Iterated T_elapsed loc st [] loc st
| I_next (loc1 loc2 : Locals) (st1 st2 : Consumer) (s : Stamp) (tr : list Stamp) :
    Grouped T_elapsed loc st loc1 s st1 ->
    Iterated T_elapsed loc1 st1 tr loc2 st2 ->
    Iterated T_elapsed loc st (s :: tr) loc2 st2.

End Dispatched.

(** ** Counting what went to the two outputs *)

(** The messages of a status byte among those sent to the port. *)
Definition sent (status : Z) (out : list (list Z)) : nat :=
  length (filter (fun m => hd 0 m =? status) out).

Definition is_note (e : FileEvent) : bool :=
  match e with Note _ _ _ _ _ _ => true | _ => false end.

Definition is_controller (e : FileEvent) : bool :=
  match e with ControllerEvent _ _ _ _ _ => true | _ => false end.

Definition notes (f : list FileEvent) : nat := length (filter is_note f).

Definition controllers (f : list FileEvent) : nat := length (filter is_controller f).

(** The state after a call of [midi_out.send_message] and nothing else. *)
Definition with_sent (st : Consumer) (m : list Z) : Consumer :=
  mkConsumer (T_cycle0 st) (E_ON st) (midi_file st) (midi_out st ++ [m])
    (port_open st) (disk st) (logged st).

(** The state in which an iteration of the [for] loop is left when
    [quarter()] raises: the groups before it are done, lines 107-121 of
    this one too, and its message is sent to the port (line 133 or 153). *)
Inductive Interrupted (bpm : Z) (T_elapsed : Q) (loc : Locals) (st : Consumer)
    : Consumer -> Prop :=
| X_here (d : Z) (m : list Z) :
    Interrupted bpm T_elapsed loc st
      (with_sent (stamped st (next_times st loc T_elapsed d) (next_clock loc d)) m)
| X_later (loc1 : Locals) (s : Stamp) (st1 st' : Consumer) :
    Grouped bpm T_elapsed loc st loc1 s st1 ->
    Interrupted bpm T_elapsed loc1 st1 st' ->
    Interrupted bpm T_elapsed loc st st'.

(** The state after lines 80-86 of the end-of-session message. *)
Definition closed (st : Consumer) : Consumer :=
  mkConsumer (T_cycle0 st) (E_ON st) (midi_file st) (midi_out st) false
    (disk st)
    (logged st ++
       LogDisconnect ::
       (if negb (length (E_ON st) =? 0)%nat
        then [LogUnmatchedOn (length (E_ON st))]
        else [])).

(** The state after the end-of-session message (lines 80-89), when the
    file could be opened. *)
Definition disconnected (st : Consumer) : Consumer :=
  mkConsumer (T_cycle0 st) (E_ON st) (midi_file st) (midi_out st) false
    (Some (midi_file st))
    (logged st ++
       LogDisconnect ::
       (if negb (length (E_ON st) =? 0)%nat
        then [LogUnmatchedOn (length (E_ON st))]
        else [])).

(** ** The producer: [run_ble_client] (lines 31-58)

    What happens while the client is connected, in the order in which it
    happens: a notification of the characteristic, with the value of
    [time.time()] in its callback; the line read from stdin and the return
    of [stop_notify], with the value of [time.time()] on line 54; an
    exception raised inside the [try] block (lines 45-56), which the
    [except] clause logs. *)
Inductive Happening : Type :=
| Notification (now : Q) (data : list byte)
| Enter (now : Q)
| Fault.

(** What [logger] receives from the producer. *)
Inductive ClientRecord : Set :=
| LogScan
| LogNoDevice
| LogConnecting
| LogConnected
| LogUnableToRead
| LogDisconnected.

(** What the producer puts on the queue while connected, and how the [try]
    block ends: [true] when it ends with the end-of-session message put.
    [T_start] is the value of [time.time()] on line 47. *)
Fixpoint connected (T_start : Q) (hs : list Happening) : list Message * bool :=
  match hs with
  | [] => ([], false)
  | Notification now data :: hs' =>
      let '(q, ok) := connected T_start hs' in
      ((1000 * (now - T_start), Some data)%Q :: q, ok)
  | Enter now :: _ => ([((now - T_start) * 1000, None)%Q], true)
  | Fault :: _ => ([], false)
  end.

(** The log of the producer while connected: the happenings that are left
    when the list ends are those of a client still connected. *)
Fixpoint connected_log (hs : list Happening) : list ClientRecord :=
  match hs with
  | [] => []
  | Notification _ _ :: hs' => connected_log hs'
  | Enter _ :: _ => [LogDisconnected]
  | Fault :: _ => [LogUnableToRead; LogDisconnected]
  end.

(** How the scan and the connection end (lines 34-44): no device of that
    name, a device to which [BleakClient] fails to connect, or a connected
    client. *)
Inductive Link : Set := NoDevice | NoConnection | Linked.

Inductive ClientExn : Set := DeviceNotFoundError | ConnectionError.

(** [run_ble_client]: the queue, the log, and the exception that leaves the
    coroutine, if any. *)
Definition run_ble_client (link : Link) (T_start : Q) (hs : list Happening)
    : list Message * list ClientRecord * option ClientExn :=
  match link with
  | NoDevice => ([], [LogScan; LogNoDevice], Some DeviceNotFoundError)
  | NoConnection => ([], [LogScan; LogConnecting], Some ConnectionError)
  | Linked =>
      (fst (connected T_start hs),
       [LogScan; LogConnecting; LogConnected] ++ connected_log hs, None)
  end.

(** [main] (lines 159-169): where the consumer stands once the producer has
    done all it does.  The two tasks share nothing but the queue, which the
    consumer reads in the order in which the producer wrote it.  When the
    producer is left by an exception, [gather] passes it on, [main] is left
    (line 167 or by the exception) and [asyncio.run] cancels the consumer. *)
Definition main (bpm : Z) (file_name : string) (writable : bool) (link : Link)
    (T_start : Q) (hs : list Happening) : Status * list Stamp * Consumer :=
  let r := run_queue_consumer bpm file_name writable
             (fst (fst (run_ble_client link T_start hs))) in
  match snd (run_ble_client link T_start hs) with
  | Some _ => cancel r
  | None => r
  end.

(** No payload of one byte among the messages. *)
Definition no_one_byte (q : list Message) : bool :=
  forallb (fun m => match snd m with Some [_] => false | _ => true end) q.

(** * Facts *)

(** ** Python primitives *)

Lemma ltb_lt (x y : Q) : Py.ltb x y = true <-> (x < y)%Q.
Proof.
  unfold Py.ltb. rewrite negb_true_iff, <- not_true_iff_false, Qle_bool_iff.
  split; [apply Qnot_le_lt | apply Qlt_not_le].
Qed.

Lemma ltb_ge (x y : Q) : Py.ltb x y = false <-> (y <= x)%Q.
Proof.
  unfold Py.ltb. rewrite negb_false_iff. apply Qle_bool_iff.
Qed.

Lemma eqb_eq (x y : Q) : Py.eqb x y = true <-> (x == y)%Q.
Proof. apply Qeq_bool_iff. Qed.

Lemma eqb_neq (x y : Q) : Py.eqb x y = false <-> ~ (x == y)%Q.
Proof.
  unfold Py.eqb. rewrite <- not_true_iff_false, Qeq_bool_iff. tauto.
Qed.

(** [x == 8192 * (x // 8192) + x % 8192] with [0 <= x % 8192 < 8192]. *)
Lemma floordiv_mod (x : Q) :
  (x == 8192 * inject_Z (Py.floordiv x 8192) + Py.mod_ x 8192)%Q.
Proof. unfold Py.mod_. ring. Qed.

Lemma mod_bounds (x : Q) : (0 <= Py.mod_ x 8192 < 8192)%Q.
Proof.
  unfold Py.mod_, Py.floordiv.
  pose proof (Qfloor_le (x / 8192)) as Hlo.
  pose proof (Qlt_floor (x / 8192)) as Hhi.
  rewrite inject_Z_plus in Hhi.
  assert (E : (x == 8192 * (x / 8192))%Q) by (field; discriminate).
  set (f := inject_Z (Qfloor (x / 8192))) in *.
  set (y := (x / 8192)%Q) in *.
  change (inject_Z 1) with 1%Q in Hhi.
  split; lra.
Qed.

Lemma land_3 (n : Z) : Z.land n 3 = n mod 4.
Proof. change 3 with (Z.ones 2). rewrite Z.land_ones by lia. reflexivity. Qed.

Lemma land_127_range (n : Z) : 0 <= Z.land n 127 < 128.
Proof.
  change 127 with (Z.ones 7). rewrite Z.land_ones by lia.
  apply Z.mod_pos_bound. reflexivity.
Qed.

(** Every group of a payload whose length passed the test of line 93 and is
    more than 1 lies within the payload. *)
Lemma range_in_bounds (n a : nat) :
  (Z.of_nat n - 1) mod 4 = 0 ->
  In a (Py.range 1 (n - 1) 4) -> (a + 3 < n)%nat.
Proof.
  unfold Py.range. intros Hn Ha.
  apply in_map_iff in Ha. destruct Ha as (k & <- & Hk).
  apply in_seq in Hk. destruct Hk as [_ Hk].
  assert (Hm : (n = 4 * ((n - 1) / 4) + 1)%nat).
  { destruct n as [|m]; [discriminate Hn|].
    replace (Z.of_nat (S m) - 1) with (Z.of_nat m) in Hn by lia.
    replace (S m - 1)%nat with m by lia.
    pose proof (Nat.div_mod_eq m 4) as E.
    assert (m mod 4 = 0)%nat by (apply Nat2Z.inj; rewrite Nat2Z.inj_mod; exact Hn).
    lia. }
  set (q := ((n - 1) / 4)%nat) in *.
  destruct q as [|q'].
  - rewrite Hm in Hk. simpl in Hk. lia.
  - replace (n - 1 - 1 + 4 - 1)%nat with (2 + S q' * 4)%nat in Hk by lia.
    rewrite Nat.div_add in Hk by discriminate.
    change (2 / 4)%nat with 0%nat in Hk. lia.
Qed.

(** ** Reading the payload *)

Lemma getitem_some (data : list byte) (i : nat) (b : byte) :
  nth_error data i = Some b -> getitem data i = ret (byte_int b).
Proof. intros H. unfold getitem. rewrite H. reflexivity. Qed.

Lemma pop_app {A} (l1 l2 : list A) (x : A) :
  pop (length l1) (l1 ++ x :: l2) = l1 ++ l2.
Proof. induction l1 as [|y l1 IH]; simpl; [reflexivity | now rewrite IH]. Qed.

(** ** The length of a quarter note *)

Lemma inject_Z_nonzero (n : Z) : n <> 0 -> ~ (inject_Z n == 0)%Q.
Proof. intros H E. apply H. unfold Qeq in E. simpl in E. lia. Qed.

Lemma quarter_ms_nonzero (bpm : Z) : bpm <> 0 -> ~ (quarter_ms bpm == 0)%Q.
Proof.
  intros H E. pose proof (inject_Z_nonzero bpm H) as Hb.
  assert (E' : (1000 * 60 == 0)%Q).
  { rewrite <- (Qmult_div_r (1000 * 60) (inject_Z bpm) Hb).
    unfold quarter_ms in E. rewrite E. ring. }
  discriminate E'.
Qed.

Lemma quarter_eq (bpm : Z) (st : Consumer) :
  bpm <> 0 -> quarter bpm st = (Normal (quarter_ms bpm), st).
Proof.
  intros H. unfold quarter, lift, Py.truediv.
  rewrite (proj2 (eqb_neq _ _) (inject_Z_nonzero bpm H)). reflexivity.
Qed.

Lemma quarter_zero (st : Consumer) : quarter 0 st = (Raised ZeroDivisionError, st).
Proof. reflexivity. Qed.

Lemma truediv_quarter (bpm : Z) (x : Q) :
  bpm <> 0 -> Py.truediv x (quarter_ms bpm) = Normal (x / quarter_ms bpm)%Q.
Proof.
  intros H. unfold Py.truediv.
  rewrite (proj2 (eqb_neq _ _) (quarter_ms_nonzero bpm H)). reflexivity.
Qed.

(** ** The three kinds of event, for a group within the payload *)

Section Handlers.

Variable bpm : Z.
Hypothesis Hbpm : bpm <> 0.
Variables (data : list byte) (a : nat) (T_event : Q).
Variables (c p v : byte).
Hypothesis Hc : nth_error data (a + 1) = Some c.
Hypothesis Hp : nth_error data (a + 2) = Some p.
Hypothesis Hv : nth_error data (a + 3) = Some v.

Ltac read :=
  rewrite ?(getitem_some _ _ _ Hc), ?(getitem_some _ _ _ Hp),
    ?(getitem_some _ _ _ Hv).

Ltac divide :=
  repeat first [rewrite quarter_eq by exact Hbpm
               | rewrite truediv_quarter by exact Hbpm].

Lemma note_off_scan_missing (l : list NoteOn) (i : nat) (st : Consumer) :
  Forall (fun x => ev1 x <> byte_int p) l ->
  note_off_scan bpm data a T_event i l st = (Normal 0, st).
Proof.
  intros H. revert i. induction H as [|x l Hx _ IH]; intros i; simpl.
  - reflexivity.
  - read. unfold bind at 1, ret at 1.
    apply Z.eqb_neq in Hx. rewrite Hx. apply IH.
Qed.

Lemma note_off_scan_found (l1 l2 : list NoteOn) (ev : NoteOn) (i : nat) (st : Consumer) :
  Forall (fun x => ev1 x <> byte_int p) l1 ->
  ev1 ev = byte_int p ->
  note_off_scan bpm data a T_event i (l1 ++ ev :: l2) st =
  (Normal 1,
   mkConsumer (T_cycle0 st) (pop (i + length l1) (E_ON st))
     (midi_file st ++
        [Note 0 (Z.land (byte_int c) 15) (ev1 ev) (ev0 ev / quarter_ms bpm)
              ((T_event - ev0 ev) / quarter_ms bpm) (ev2 ev)])
     (midi_out st ++ [[128; byte_int p; byte_int v]])
     (port_open st) (disk st) (logged st)).
Proof.
  intros H Hev. revert i. induction H as [|x l1 Hx _ IH]; intros i; simpl.
  - read. unfold bind at 1, ret at 1.
    rewrite (proj2 (Z.eqb_eq _ _) Hev).
    unfold bind, ret, send_message, modify, lift. divide.
    rewrite Nat.add_0_r. reflexivity.
  - read. unfold bind at 1, ret at 1.
    apply Z.eqb_neq in Hx. rewrite Hx. rewrite IH.
    now rewrite Nat.add_succ_r.
Qed.

(** The same scan at tempo 0: [quarter()] raises after the message is
    sent. *)
Lemma note_off_scan_zero (l1 l2 : list NoteOn) (ev : NoteOn) (i : nat) (st : Consumer) :
  bpm = 0 ->
  Forall (fun x => ev1 x <> byte_int p) l1 ->
  ev1 ev = byte_int p ->
  note_off_scan bpm data a T_event i (l1 ++ ev :: l2) st =
  (Raised ZeroDivisionError, with_sent st [128; byte_int p; byte_int v]).
Proof.
  clear Hbpm. intros Z0 H Hev. rewrite Z0.
  revert i. induction H as [|x l1 Hx _ IH]; intros i; simpl.
  - read. unfold bind at 1, ret at 1.
    rewrite (proj2 (Z.eqb_eq _ _) Hev). reflexivity.
  - read. unfold bind at 1, ret at 1.
    apply Z.eqb_neq in Hx. rewrite Hx. apply IH.
Qed.

Lemma note_off_unmatched (st : Consumer) :
  Forall (fun x => ev1 x <> byte_int p) (E_ON st) ->
  note_off bpm data a T_event st =
  (Normal tt,
   mkConsumer (T_cycle0 st) (E_ON st) (midi_file st) (midi_out st)
     (port_open st) (disk st)
     (logged st ++ [LogUnmatchedOff (byte_int p) T_event])).
Proof.
  intros H. unfold note_off. unfold bind at 1, gets at 1.
  unfold bind at 1. rewrite (note_off_scan_missing _ _ _ H).
  read. reflexivity.
Qed.

Lemma note_off_matched (l1 l2 : list NoteOn) (ev : NoteOn) (st : Consumer) :
  E_ON st = l1 ++ ev :: l2 ->
  Forall (fun x => ev1 x <> byte_int p) l1 ->
  ev1 ev = byte_int p ->
  note_off bpm data a T_event st =
  (Normal tt,
   mkConsumer (T_cycle0 st) (l1 ++ l2)
     (midi_file st ++
        [Note 0 (Z.land (byte_int c) 15) (ev1 ev) (ev0 ev / quarter_ms bpm)
              ((T_event - ev0 ev) / quarter_ms bpm) (ev2 ev)])
     (midi_out st ++ [[128; byte_int p; byte_int v]])
     (port_open st) (disk st) (logged st)).
Proof.
  intros E H Hev. unfold note_off. unfold bind at 1, gets at 1.
  unfold bind at 1. rewrite E at 1.
  rewrite (note_off_scan_found _ _ _ _ _ H Hev).
  simpl. unfold ret. rewrite E, pop_app. reflexivity.
Qed.

Lemma note_off_zero (l1 l2 : list NoteOn) (ev : NoteOn) (st : Consumer) :
  bpm = 0 ->
  E_ON st = l1 ++ ev :: l2 ->
  Forall (fun x => ev1 x <> byte_int p) l1 ->
  ev1 ev = byte_int p ->
  note_off bpm data a T_event st =
  (Raised ZeroDivisionError, with_sent st [128; byte_int p; byte_int v]).
Proof.
  clear Hbpm. intros Z0 E H Hev. unfold note_off. unfold bind at 1, gets at 1.
  unfold bind at 1. rewrite E at 1.
  rewrite (note_off_scan_zero _ _ _ _ _ Z0 H Hev). reflexivity.
Qed.

(** The records of the duplicates found by the scan of a note-on. *)
Lemma note_on_scan_eq (l : list NoteOn) (dup : Z) (st : Consumer) :
  let found := filter (fun ee => ev1 ee =? byte_int p) l in
  note_on_scan data a T_event l dup st =
  (Normal (dup + Z.of_nat (length found)),
   mkConsumer (T_cycle0 st) (E_ON st) (midi_file st) (midi_out st)
     (port_open st) (disk st)
     (logged st ++
        map (fun ee => LogDupNoteOn (ev1 ee) (ev0 ee) T_event (ev2 ee) (byte_int v))
            found)).
Proof.
  revert dup st. induction l as [|ee l IH]; intros dup st; simpl.
  - rewrite Z.add_0_r, app_nil_r. destruct st; reflexivity.
  - read. unfold bind at 1, ret at 1.
    destruct (ev1 ee =? byte_int p) eqn:E.
    + unfold bind at 1, ret at 1. unfold bind at 1, logger at 1, modify at 1.
      rewrite IH. cbn [length map T_cycle0 E_ON midi_file midi_out port_open disk logged].
      rewrite <- app_assoc. do 2 f_equal. lia.
    + apply IH.
Qed.

Lemma note_on_fresh (st : Consumer) :
  Forall (fun x => ev1 x <> byte_int p) (E_ON st) ->
  note_on data a T_event st =
  (Normal tt,
   mkConsumer (T_cycle0 st) (E_ON st ++ [(T_event, byte_int p, byte_int v)])
     (midi_file st) (midi_out st ++ [[144; byte_int p; byte_int v]])
     (port_open st) (disk st) (logged st)).
Proof.
  intros H. unfold note_on. unfold bind at 1, gets at 1.
  unfold bind at 1. rewrite note_on_scan_eq.
  assert (F : filter (fun ee => ev1 ee =? byte_int p) (E_ON st) = []).
  { induction H as [|x l Hx _ IH]; simpl; [reflexivity|].
    apply Z.eqb_neq in Hx. now rewrite Hx. }
  rewrite F. read. simpl. rewrite app_nil_r. reflexivity.
Qed.

Lemma note_on_duplicate (st : Consumer) :
  Exists (fun x => ev1 x = byte_int p) (E_ON st) ->
  let found := filter (fun ee => ev1 ee =? byte_int p) (E_ON st) in
  found <> [] /\
  note_on data a T_event st =
  (Normal tt,
   mkConsumer (T_cycle0 st) (E_ON st) (midi_file st) (midi_out st)
     (port_open st) (disk st)
     (logged st ++
        map (fun ee => LogDupNoteOn (ev1 ee) (ev0 ee) T_event (ev2 ee) (byte_int v))
            found)).
Proof.
  intros H found.
  assert (F : found <> []).
  { apply Exists_exists in H. destruct H as (x & Hin & Hx).
    assert (Hf : In x found) by (apply filter_In; split; [exact Hin | now apply Z.eqb_eq]).
    intros E. rewrite E in Hf. exact Hf. }
  split; [exact F|].
  unfold note_on. unfold bind at 1, gets at 1.
  unfold bind at 1. rewrite note_on_scan_eq. fold found.
  destruct found as [|x found']; [contradiction|].
  replace (0 + Z.of_nat (length (x :: found')) =? 0) with false; [reflexivity|].
  symmetry. apply Z.eqb_neq. simpl length. lia.
Qed.

Lemma controller_eq (st : Consumer) :
  controller bpm data a T_event st =
  (Normal tt,
   mkConsumer (T_cycle0 st) (E_ON st)
     (midi_file st ++
        [ControllerEvent 0 (Z.land (byte_int c) 15) (T_event / quarter_ms bpm)
                         (byte_int p) (byte_int v)])
     (midi_out st ++ [[176; byte_int p; byte_int v]])
     (port_open st) (disk st) (logged st)).
Proof.
  unfold controller. read. unfold bind, ret, send_message, modify, lift.
  divide. reflexivity.
Qed.

Lemma controller_zero (st : Consumer) :
  bpm = 0 ->
  controller bpm data a T_event st =
  (Raised ZeroDivisionError, with_sent st [176; byte_int p; byte_int v]).
Proof. clear Hbpm. intros Z0. rewrite Z0. unfold controller. read. reflexivity. Qed.

End Handlers.

(** The first pending note-on of a pitch, if there is one. *)
Lemma first_match (P : Z) (l : list NoteOn) :
  Forall (fun x => ev1 x <> P) l \/
  exists l1 ev l2,
    l = l1 ++ ev :: l2 /\ Forall (fun x => ev1 x <> P) l1 /\ ev1 ev = P.
Proof.
  induction l as [|x l IH].
  - left. constructor.
  - destruct (Z.eq_dec (ev1 x) P) as [E | NE].
    + right. exists [], x, l. repeat split; [constructor | exact E].
    + destruct IH as [IH | (l1 & ev & l2 & -> & H1 & H2)].
      * left. now constructor.
      * right. exists (x :: l1), ev, l2. repeat split; [now constructor | exact H2].
Qed.

Lemma pending_or_not (P : Z) (l : list NoteOn) :
  Forall (fun x => ev1 x <> P) l \/ Exists (fun x => ev1 x = P) l.
Proof.
  destruct (first_match P l) as [H | (l1 & ev & l2 & -> & _ & H)]; [now left|].
  right. apply Exists_exists. exists ev. split; [|exact H].
  apply in_or_app. right. now left.
Qed.

(** ** One group within the payload *)

Section Group.

Variable bpm : Z.
Hypothesis Hbpm : bpm <> 0.
Variables (T_elapsed : Q) (data : list byte) (a : nat).
Variables (d s p v : byte).
Hypothesis Hd : nth_error data a = Some d.
Hypothesis Hs : nth_error data (a + 1) = Some s.
Hypothesis Hp : nth_error data (a + 2) = Some p.
Hypothesis Hv : nth_error data (a + 3) = Some v.

Lemma dispatch_eq (T_event : Q) (st : Consumer) :
  dispatch bpm data a T_event st =
  if Z.land (byte_int s) 240 =? 128 then note_off bpm data a T_event st
  else if Z.land (byte_int s) 240 =? 144 then note_on data a T_event st
  else if Z.land (byte_int s) 240 =? 176 then controller bpm data a T_event st
  else (Normal tt, st).
Proof.
  unfold dispatch. rewrite (getitem_some _ _ _ Hs).
  unfold bind at 1, ret at 1.
  destruct (Z.land (byte_int s) 240 =? 128); [reflexivity|].
  destruct (Z.land (byte_int s) 240 =? 144); [reflexivity|].
  destruct (Z.land (byte_int s) 240 =? 176); reflexivity.
Qed.

(** At any tempo: [dispatch] returns, or the tempo is 0 and [quarter()]
    raises after the message of a note-off or of a controller is sent. *)
Lemma dispatch_cases (T_event : Q) (st : Consumer) :
  (exists st',
     dispatch bpm data a T_event st = (Normal tt, st') /\
     Dispatched bpm (byte_int s) (byte_int p) (byte_int v) T_event st st') \/
  (bpm = 0 /\
   exists m,
     dispatch bpm data a T_event st = (Raised ZeroDivisionError, with_sent st m)).
Proof.
  clear Hbpm. rewrite dispatch_eq.
  destruct (Z.land (byte_int s) 240 =? 128) eqn:E1.
  { apply Z.eqb_eq in E1.
    destruct (first_match (byte_int p) (E_ON st)) as [H | (l1 & ev & l2 & E & H1 & H2)].
    - left. eexists. split; [eapply note_off_unmatched; eassumption|].
      now apply D_unmatched_note_off.
    - destruct (Z.eq_dec bpm 0) as [Z0 | NZ].
      + right. split; [exact Z0|]. eexists. eapply note_off_zero; eassumption.
      + left. eexists. split; [eapply note_off_matched; eassumption|].
        now apply D_note_off. }
  apply Z.eqb_neq in E1.
  destruct (Z.land (byte_int s) 240 =? 144) eqn:E2.
  { apply Z.eqb_eq in E2.
    destruct (pending_or_not (byte_int p) (E_ON st)) as [H | H].
    - left. eexists. split; [eapply note_on_fresh; eassumption|].
      now apply D_note_on.
    - left. eexists. split; [eapply note_on_duplicate; eassumption|].
      now apply D_duplicate_note_on. }
  apply Z.eqb_neq in E2.
  destruct (Z.land (byte_int s) 240 =? 176) eqn:E3.
  { apply Z.eqb_eq in E3.
    destruct (Z.eq_dec bpm 0) as [Z0 | NZ].
    - right. split; [exact Z0|]. eexists. eapply controller_zero; eassumption.
    - left. eexists. split; [eapply controller_eq; eassumption|].
      now apply D_controller. }
  apply Z.eqb_neq in E3.
  left. exists st. split; [reflexivity | now apply D_other].
Qed.

Lemma dispatch_sound (T_event : Q) (st : Consumer) :
  exists st',
    dispatch bpm data a T_event st = (Normal tt, st') /\
    Dispatched bpm (byte_int s) (byte_int p) (byte_int v) T_event st st'.
Proof.
  destruct (dispatch_cases T_event st) as [H | [Z0 _]]; [exact H | contradiction].
Qed.

Lemma stamp_eq (T_packet N : Z) (st : Consumer) :
  let tm := event_time (T_cycle0 st) N T_elapsed T_packet in
  stamp T_elapsed T_packet N st = (Normal tm, stamped st tm T_packet).
Proof.
  intros tm. unfold stamp, stamped. unfold bind at 1, gets at 1. fold tm.
  unfold bind at 1, set_T_cycle0 at 1, modify at 1.
  destruct (time_error (tm_DT tm) T_packet); reflexivity.
Qed.

(** The group of a channel other than 0: only the clock advances. *)
Lemma group_skipped (loc : Locals) (st : Consumer) :
  Z.land (byte_int s) 15 <> 0 ->
  let tm := next_times st loc T_elapsed (byte_int d) in
  group bpm T_elapsed data a loc st =
  (Normal (next_locals loc (byte_int d) tm,
           mkStamp T_elapsed (next_clock loc (byte_int d)) (tm_event tm)),
   stamped st tm (next_clock loc (byte_int d))).
Proof.
  intros Hch tm. unfold group. rewrite (getitem_some _ _ _ Hd).
  unfold bind at 1, ret at 1. unfold bind at 1. rewrite stamp_eq.
  replace (1 + a)%nat with (a + 1)%nat by lia. rewrite (getitem_some _ _ _ Hs).
  unfold bind at 1, ret at 1.
  apply Z.eqb_neq in Hch. rewrite Hch. reflexivity.
Qed.

(** The group of channel 0. *)
Lemma group_channel0 (loc : Locals) (st : Consumer) :
  Z.land (byte_int s) 15 = 0 ->
  let tm := next_times st loc T_elapsed (byte_int d) in
  group bpm T_elapsed data a loc st =
  match dispatch bpm data a (tm_event tm) (stamped st tm (next_clock loc (byte_int d))) with
  | (Normal _, st') =>
      (Normal (next_locals loc (byte_int d) tm,
               mkStamp T_elapsed (next_clock loc (byte_int d)) (tm_event tm)),
       st')
  | (Raised e, st') => (Raised e, st')
  end.
Proof.
  intros Hch tm. unfold group. rewrite (getitem_some _ _ _ Hd).
  unfold bind at 1, ret at 1. unfold bind at 1. rewrite stamp_eq.
  replace (1 + a)%nat with (a + 1)%nat by lia. rewrite (getitem_some _ _ _ Hs).
  unfold bind at 1, ret at 1.
  apply Z.eqb_eq in Hch. rewrite Hch. cbn [negb].
  unfold bind at 1. reflexivity.
Qed.

Lemma group_dispatched (loc : Locals) (st : Consumer) :
  Z.land (byte_int s) 15 = 0 ->
  let tm := next_times st loc T_elapsed (byte_int d) in
  exists st',
    group bpm T_elapsed data a loc st =
    (Normal (next_locals loc (byte_int d) tm,
             mkStamp T_elapsed (next_clock loc (byte_int d)) (tm_event tm)),
     st') /\
    Dispatched bpm (byte_int s) (byte_int p) (byte_int v) (tm_event tm)
      (stamped st tm (next_clock loc (byte_int d))) st'.
Proof.
  intros Hch tm.
  destruct (dispatch_sound (tm_event tm) (stamped st tm (next_clock loc (byte_int d))))
    as (st' & E & HD).
  exists st'. split; [|exact HD].
  rewrite (group_channel0 loc st Hch). fold tm. rewrite E. reflexivity.
Qed.

(** At any tempo: the iteration is done, or the tempo is 0 and it is left
    by [quarter()]. *)
Lemma group_cases (loc : Locals) (st : Consumer) :
  (exists loc' sp st',
     group bpm T_elapsed data a loc st = (Normal (loc', sp), st') /\
     Grouped bpm T_elapsed loc st loc' sp st') \/
  (bpm = 0 /\
   exists st',
     group bpm T_elapsed data a loc st = (Raised ZeroDivisionError, st') /\
     Interrupted bpm T_elapsed loc st st').
Proof.
  clear Hbpm.
  destruct (Z.eq_dec (Z.land (byte_int s) 15) 0) as [Hch | Hch].
  - pose proof (group_channel0 loc st Hch) as G. cbv zeta in G.
    destruct (dispatch_cases (tm_event (next_times st loc T_elapsed (byte_int d)))
                (stamped st (next_times st loc T_elapsed (byte_int d))
                   (next_clock loc (byte_int d))))
      as [(st' & E & HD) | (Z0 & m & E)]; rewrite E in G.
    + left. do 3 eexists. split; [exact G|]. eapply G_dispatched; eassumption.
    + right. split; [exact Z0|]. eexists. split; [exact G | apply X_here].
  - left. do 3 eexists. split; [apply (group_skipped loc st Hch) | apply G_skipped].
Qed.

(** The cases of [dispatch] on the status. *)
Lemma dispatch_note_off (T_event : Q) :
  Z.land (byte_int s) 240 = 128 ->
  dispatch bpm data a T_event = note_off bpm data a T_event.
Proof.
  intros E. unfold dispatch. rewrite (getitem_some _ _ _ Hs).
  unfold bind, ret. rewrite E. reflexivity.
Qed.

Lemma dispatch_note_on (T_event : Q) :
  Z.land (byte_int s) 240 = 144 ->
  dispatch bpm data a T_event = note_on data a T_event.
Proof.
  intros E. unfold dispatch. rewrite (getitem_some _ _ _ Hs).
  unfold bind, ret. rewrite E. reflexivity.
Qed.

End Group.

(** ** The groups of a packet *)

Lemma in_bounds {A} (l : list A) (i : nat) :
  (i < length l)%nat -> exists x, nth_error l i = Some x.
Proof.
  intros H. destruct (nth_error l i) as [x|] eqn:E; [now exists x|].
  apply nth_error_None in E. lia.
Qed.

Lemma group_any (bpm : Z) (T_elapsed : Q) (data : list byte) (a : nat)
    (loc : Locals) (st : Consumer) :
  (a + 3 < length data)%nat ->
  (exists loc' s st',
     group bpm T_elapsed data a loc st = (Normal (loc', s), st') /\
     Grouped bpm T_elapsed loc st loc' s st') \/
  (bpm = 0 /\
   exists st',
     group bpm T_elapsed data a loc st = (Raised ZeroDivisionError, st') /\
     Interrupted bpm T_elapsed loc st st').
Proof.
  intros H.
  destruct (in_bounds data a) as (d & Hd); [lia|].
  destruct (in_bounds data (a + 1)) as (s & Hs); [lia|].
  destruct (in_bounds data (a + 2)) as (p & Hp); [lia|].
  destruct (in_bounds data (a + 3)) as (v & Hv); [lia|].
  exact (group_cases bpm T_elapsed data a d s p v Hd Hs Hp Hv loc st).
Qed.

Lemma group_grouped (bpm : Z) (Hbpm : bpm <> 0) (T_elapsed : Q) (data : list byte)
    (a : nat) (loc : Locals) (st : Consumer) :
  (a + 3 < length data)%nat ->
  exists loc' s st',
    group bpm T_elapsed data a loc st = (Normal (loc', s), st') /\
    Grouped bpm T_elapsed loc st loc' s st'.
Proof.
  intros H.
  destruct (group_any bpm T_elapsed data a loc st H) as [G | [Z0 _]];
    [exact G | contradiction].
Qed.

(** At any tempo: the [for] loop is done, or the tempo is 0 and one of its
    iterations is left by [quarter()]. *)
Lemma for_groups_cases (bpm : Z) (T_elapsed : Q) (data : list byte)
    (l : list nat) (loc : Locals) (st : Consumer) :
  Forall (fun a => a + 3 < length data)%nat l ->
  (exists loc' tr st',
     for_groups bpm T_elapsed data l loc st = (Normal (loc', tr), st') /\
     Iterated bpm T_elapsed loc st tr loc' st') \/
  (bpm = 0 /\
   exists st',
     for_groups bpm T_elapsed data l loc st = (Raised ZeroDivisionError, st') /\
     Interrupted bpm T_elapsed loc st st').
Proof.
  intros H. revert loc st. induction H as [|a l Ha _ IH]; intros loc st.
  - left. exists loc, [], st. split; [reflexivity | constructor].
  - simpl. unfold bind at 1 3.
    destruct (group_any bpm T_elapsed data a loc st Ha)
      as [(loc1 & s & st1 & E1 & G1) | (Z0 & st1 & E1 & X1)]; rewrite E1.
    + cbn [fst snd]. unfold bind at 1 2.
      destruct (IH loc1 st1) as [(loc2 & tr & st2 & E2 & I2) | (Z0 & st2 & E2 & X2)];
        rewrite E2.
      * left. exists loc2, (s :: tr), st2. split; [reflexivity|].
        econstructor; eassumption.
      * right. split; [exact Z0|]. exists st2. split; [reflexivity|].
        eapply X_later; eassumption.
    + right. split; [exact Z0|]. exists st1. split; [reflexivity | exact X1].
Qed.

Lemma for_groups_iterated (bpm : Z) (Hbpm : bpm <> 0) (T_elapsed : Q)
    (data : list byte) (l : list nat) (loc : Locals) (st : Consumer) :
  Forall (fun a => a + 3 < length data)%nat l ->
  exists loc' tr st',
    for_groups bpm T_elapsed data l loc st = (Normal (loc', tr), st') /\
    Iterated bpm T_elapsed loc st tr loc' st'.
Proof.
  intros H.
  destruct (for_groups_cases bpm T_elapsed data l loc st H) as [G | [Z0 _]];
    [exact G | contradiction].
Qed.

(** ** One packet: rejected, failing, or iterated over its groups *)

Lemma packet_rejected (bpm : Z) (T_elapsed : Q) (data : list byte)
    (st : Consumer) :
  (Z.of_nat (length data) - 1) mod 4 <> 0 ->
  packet bpm T_elapsed data st =
  (Normal [],
   with_log (with_log st (LogReceived T_elapsed data)) (LogCannotParse (length data))).
Proof.
  intros H. unfold packet. unfold bind at 1, logger at 1, modify at 1.
  rewrite land_3. apply Z.eqb_neq in H. rewrite H. reflexivity.
Qed.

Lemma packet_one_byte (bpm : Z) (T_elapsed : Q) (b : byte) (st : Consumer) :
  packet bpm T_elapsed [b] st =
  (Raised IndexError, with_log st (LogReceived T_elapsed [b])).
Proof. reflexivity. Qed.

(** A packet of a well-formed length above 1, at any tempo: its [for] loop
    runs from the locals of lines 97-100. *)
Lemma packet_eq (bpm : Z) (T_elapsed : Q) (data : list byte) (st : Consumer) :
  (Z.of_nat (length data) - 1) mod 4 = 0 ->
  (1 < length data)%nat ->
  exists h l,
    nth_error data 0 = Some h /\ nth_error data 1 = Some l /\
    packet bpm T_elapsed data st =
    match for_groups bpm T_elapsed data (Py.range 1 (length data - 1) 4)
            (mkLocals (Z.land (byte_int h) 63) (Z.land (byte_int l) 127) 0)
            (with_log st (LogReceived T_elapsed data)) with
    | (Normal r, st') => (Normal (snd r), st')
    | (Raised e, st') => (Raised e, st')
    end.
Proof.
  intros Hm Hlen.
  destruct (in_bounds data 0) as (h & Hh); [lia|].
  destruct (in_bounds data 1) as (l & Hl); [lia|].
  exists h, l. repeat split; [exact Hh | exact Hl |].
  unfold packet. unfold bind at 1, logger at 1, modify at 1.
  rewrite land_3. rewrite Hm. cbn [Z.eqb negb].
  rewrite (getitem_some _ _ _ Hh). unfold bind at 1, ret at 1.
  rewrite (getitem_some _ _ _ Hl). unfold bind at 1, ret at 1.
  unfold bind at 1. unfold with_log. reflexivity.
Qed.

Lemma packet_cases (bpm : Z) (T_elapsed : Q) (data : list byte) (st : Consumer) :
  (Z.of_nat (length data) - 1) mod 4 = 0 ->
  (1 < length data)%nat ->
  exists h l,
    nth_error data 0 = Some h /\ nth_error data 1 = Some l /\
    ((exists tr loc' st',
        packet bpm T_elapsed data st = (Normal tr, st') /\
        Iterated bpm T_elapsed
          (mkLocals (Z.land (byte_int h) 63) (Z.land (byte_int l) 127) 0)
          (with_log st (LogReceived T_elapsed data)) tr loc' st') \/
     (bpm = 0 /\
      exists st',
        packet bpm T_elapsed data st = (Raised ZeroDivisionError, st') /\
        Interrupted bpm T_elapsed
          (mkLocals (Z.land (byte_int h) 63) (Z.land (byte_int l) 127) 0)
          (with_log st (LogReceived T_elapsed data)) st')).
Proof.
  intros Hm Hlen.
  destruct (packet_eq bpm T_elapsed data st Hm Hlen) as (h & l & Hh & Hl & E).
  exists h, l. split; [exact Hh|]. split; [exact Hl|]. rewrite E.
  destruct (for_groups_cases bpm T_elapsed data (Py.range 1 (length data - 1) 4)
              (mkLocals (Z.land (byte_int h) 63) (Z.land (byte_int l) 127) 0)
              (with_log st (LogReceived T_elapsed data)))
    as [(loc' & tr & st' & E' & HI) | (Z0 & st' & E' & HX)].
  { apply Forall_forall. intros a Ha. now apply range_in_bounds. }
  - left. exists tr, loc', st'. rewrite E'. split; [reflexivity | exact HI].
  - right. split; [exact Z0|]. exists st'. rewrite E'. split; [reflexivity | exact HX].
Qed.

Lemma packet_iterated (bpm : Z) (Hbpm : bpm <> 0) (T_elapsed : Q) (data : list byte)
    (st : Consumer) :
  (Z.of_nat (length data) - 1) mod 4 = 0 ->
  (1 < length data)%nat ->
  exists h l tr loc' st',
    nth_error data 0 = Some h /\ nth_error data 1 = Some l /\
    packet bpm T_elapsed data st = (Normal tr, st') /\
    Iterated bpm T_elapsed
      (mkLocals (Z.land (byte_int h) 63) (Z.land (byte_int l) 127) 0)
      (with_log st (LogReceived T_elapsed data)) tr loc' st'.
Proof.
  intros Hm Hlen.
  destruct (packet_cases bpm T_elapsed data st Hm Hlen)
    as (h & l & Hh & Hl & [(tr & loc' & st' & E & HI) | [Z0 _]]); [|contradiction].
  exists h, l, tr, loc', st'. repeat split; assumption.
Qed.

Lemma length_cases (data : list byte) :
  (Z.of_nat (length data) - 1) mod 4 <> 0 \/
  (exists b, data = [b]) \/
  ((Z.of_nat (length data) - 1) mod 4 = 0 /\ (1 < length data)%nat).
Proof.
  destruct (Z.eq_dec ((Z.of_nat (length data) - 1) mod 4) 0) as [E | NE]; [|now left].
  right. destruct data as [|b [|b' data]].
  - discriminate E.
  - left. now exists b.
  - right. split; [exact E | simpl; lia].
Qed.

(** * Properties of the consumer *)

(** ** The scenarios of the specification, at 120 beats per minute *)

(** Scenario A: a note-on at clock 100 and its note-off at clock 1100, in
    two packets that arrive 1000 ms apart: a note of 1000 ms, 2 beats. *)
Example scenario_A :
  let '(_, tr, st) :=
    run_queue_consumer 120 "Track1" true
      [(1000%Q, Some (bytes [0; 100; 144; 60; 100]));
       (2000%Q, Some (bytes [8; 76; 128; 60; 0]))] in
  clocks tr = [100; 1100] /\
  events tr = [1000%Q; 2000%Q] /\
  midi_file st =
    [TrackName 0 0 "Track1"; Tempo 0 0 120;
     Note 0 0 60 (1000 / quarter_ms 120) (1000 / quarter_ms 120) 100] /\
  (1000 / quarter_ms 120 == 2)%Q /\
  midi_out st = [[144; 60; 100]; [128; 60; 0]] /\
  E_ON st = [].
Proof. vm_compute. repeat split. Qed.

(** Scenario B: two note-on of pitch 64 without a note-off between them. *)
Example scenario_B :
  let '(_, _, st) :=
    run_queue_consumer 120 "Track1" true
      [(1000%Q, Some (bytes [0; 100; 144; 64; 100; 110; 144; 64; 90]))] in
  E_ON st = [(1000%Q, 64, 100)] /\
  midi_out st = [[144; 64; 100]] /\
  In (LogDupNoteOn 64 1000 1010 100 90) (logged st).
Proof. vm_compute. repeat split. auto 10. Qed.

(** Scenario C: a note-off of pitch 67 without a note-on before it. *)
Example scenario_C :
  let '(_, _, st) :=
    run_queue_consumer 120 "Track1" true [(1000%Q, Some (bytes [0; 100; 128; 67; 0]))] in
  midi_file st = [TrackName 0 0 "Track1"; Tempo 0 0 120] /\
  midi_out st = [] /\
  In (LogUnmatchedOff 67 1000) (logged st).
Proof. vm_compute. repeat split. auto 10. Qed.

(** Scenario E: the end of the session with two notes pending. *)
Example scenario_E :
  let '(s, _, st) :=
    run_queue_consumer 120 "Track1" true
      [(1000%Q, Some (bytes [0; 100; 144; 60; 100; 110; 144; 62; 90]));
       (3000%Q, None)] in
  s = Returned /\
  port_open st = false /\
  disk st = Some [TrackName 0 0 "Track1"; Tempo 0 0 120] /\
  In (LogUnmatchedOn 2) (logged st).
Proof. vm_compute. repeat split. auto 10. Qed.

(** ** Malformed length *)

(** C5.  A payload whose length minus 1 is not a multiple of 4 is rejected:
    the message is logged at level INFO and dropped, no sub-event is
    produced, the clock of the session, the pending notes, the Timeline and
    the live output are as before, and the loop goes on with the next
    message of the queue. *)
Theorem malformed_length_rejected (bpm : Z) (writable : bool) (T_elapsed : Q)
    (data : list byte) (q : list Message) (st : Consumer) :
  (Z.of_nat (length data) - 1) mod 4 <> 0 ->
  exists st',
    message bpm writable (T_elapsed, Some data) st = (Normal (Continue, []), st') /\
    T_cycle0 st' = T_cycle0 st /\
    E_ON st' = E_ON st /\
    midi_file st' = midi_file st /\
    midi_out st' = midi_out st /\
    port_open st' = port_open st /\
    disk st' = disk st /\
    logged st' =
      logged st ++ [LogReceived T_elapsed data; LogCannotParse (length data)] /\
    level (LogCannotParse (length data)) = INFO /\
    while_true bpm writable ((T_elapsed, Some data) :: q) st = while_true bpm writable q st'.
Proof.
  intros H.
  exists (with_log (with_log st (LogReceived T_elapsed data))
                   (LogCannotParse (length data))).
  assert (E : message bpm writable (T_elapsed, Some data) st =
              (Normal (Continue, []),
               with_log (with_log st (LogReceived T_elapsed data))
                        (LogCannotParse (length data)))).
  { unfold message. cbn [fst snd]. unfold bind at 1.
    rewrite (packet_rejected bpm T_elapsed data st H). reflexivity. }
  split; [exact E|].
  repeat split.
  - cbn. now rewrite <- app_assoc.
  - cbn [while_true]. rewrite E.
    destruct (while_true bpm writable q _) as [[s tr] st'']. reflexivity.
Qed.

Lemma malformed_length_rejected_witness :
  exists st',
    message 120 true (1000%Q, Some (bytes [0; 100; 144])) (start 120 "Track1") =
    (Normal (Continue, []), st') /\
    T_cycle0 st' = T_cycle0 (start 120 "Track1").
Proof.
  destruct (malformed_length_rejected 120 true 1000%Q (bytes [0; 100; 144]) []
              (start 120 "Track1")) as (st' & E & HT & _).
  - vm_compute. discriminate.
  - exists st'. split; [exact E | exact HT].
Defined.

(** ** Note-on and note-off *)



(** C7.  A note-on for a pitch that has a pending note, and a note-off for a
    pitch that has none, are logged at level INFO and go to neither output:
    the live output, the Timeline and the pending notes are as before. *)
Theorem duplicate_and_unmatched_suppressed (bpm : Z) (T_elapsed : Q)
    (data : list byte) (a : nat) (d s p v : byte) (loc : Locals) (st : Consumer) :
  nth_error data a = Some d ->
  nth_error data (a + 1) = Some s ->
  nth_error data (a + 2) = Some p ->
  nth_error data (a + 3) = Some v ->
  Z.land (byte_int s) 15 = 0 ->
  (Z.land (byte_int s) 240 = 144 /\
   Exists (fun x => ev1 x = byte_int p) (E_ON st)) \/
  (Z.land (byte_int s) 240 = 128 /\
   Forall (fun x => ev1 x <> byte_int p) (E_ON st)) ->
  let tm := next_times st loc T_elapsed (byte_int d) in
  exists loc' T_packet st' records,
    group bpm T_elapsed data a loc st =
      (Normal (loc', mkStamp T_elapsed T_packet (tm_event tm)), st') /\
    midi_out st' = midi_out st /\
    midi_file st' = midi_file st /\
    E_ON st' = E_ON st /\
    logged st' = logged (stamped st tm T_packet) ++ records /\
    records <> [] /\
    Forall (fun r => level r = INFO) records.
Proof.
  intros Hd Hs Hp Hv Hch Hcase tm.
  destruct Hcase as [[Hst Hdup] | [Hst Hnone]].
  - destruct (note_on_duplicate data a (tm_event tm) p v Hp Hv
                (stamped st tm (next_clock loc (byte_int d))) Hdup) as [Hne E].
    do 4 eexists. split.
    + rewrite (group_channel0 bpm T_elapsed data a d s Hd Hs loc st Hch).
      rewrite (dispatch_note_on bpm data a s Hs _ Hst).
      fold tm. rewrite E. reflexivity.
    + cbn [midi_out midi_file E_ON logged stamped].
      repeat split.
      { intros Hm. apply map_eq_nil in Hm. exact (Hne Hm). }
      apply Forall_forall. intros r Hr. apply in_map_iff in Hr.
      destruct Hr as (ee & <- & _). reflexivity.
  - exists (next_locals loc (byte_int d) tm), (next_clock loc (byte_int d)).
    eexists. exists [LogUnmatchedOff (byte_int p) (tm_event tm)]. split.
    + rewrite (group_channel0 bpm T_elapsed data a d s Hd Hs loc st Hch).
      rewrite (dispatch_note_off bpm data a s Hs _ Hst).
      fold tm.
      rewrite (note_off_unmatched bpm data a (tm_event tm) s p v Hs Hp Hv
                 (stamped st tm (next_clock loc (byte_int d))) Hnone).
      reflexivity.
    + cbn [midi_out midi_file E_ON logged stamped].
      repeat split; [discriminate|].
      constructor; [reflexivity | constructor].
Qed.

Lemma duplicate_and_unmatched_suppressed_witness :
  exists loc' T_packet st' (records : list LogRecord),
    group 120 2000 (bytes [7; 228; 128; 67; 0]) 1 (mkLocals 7 100 0)
      (mkConsumer 900 [(1000%Q, 60, 100)] [] [] true None []) =
      (Normal (loc', mkStamp 2000 T_packet 1896), st') /\
    midi_out st' = [] /\ midi_file st' = [] /\ E_ON st' = [(1000%Q, 60, 100)] /\
    records <> [].
Proof.
  destruct (duplicate_and_unmatched_suppressed 120 2000 (bytes [7; 228; 128; 67; 0]) 1
              "228"%byte "128"%byte "067"%byte "000"%byte (mkLocals 7 100 0)
              (mkConsumer 900 [(1000%Q, 60, 100)] [] [] true None []))
    as (loc' & tp & st' & rs & E & HO & HF & HE & _ & Hrs & _);
    try reflexivity.
  - right. split; [reflexivity|]. constructor; [discriminate | constructor].
  - exists loc', tp, st', rs. repeat split; assumption.
Defined.

(** ** The clock of the packet *)

Lemma clock_eq (h l : Z) : 0 <= l < 128 -> clock h l = 128 * h + l.
Proof.
  intros Hl. unfold clock.
  rewrite Z.shiftl_mul_pow2 by lia. change (2 ^ 7) with 128.
  assert (H0 : Z.land (h * 128) l = 0).
  { apply Z.bits_inj'. intros n Hn. rewrite Z.land_spec, Z.bits_0.
    destruct (Z.lt_ge_cases n 7) as [Hlt | Hge].
    - change 128 with (2 ^ 7).
      rewrite Z.mul_pow2_bits_low by lia. reflexivity.
    - replace (Z.testbit l n) with false; [apply andb_false_r|].
      symmetry. apply Z.testbit_false; [lia|].
      rewrite Z.div_small; [reflexivity|].
      split; [lia|]. apply Z.lt_le_trans with (2 ^ 7); [lia|].
      apply Z.pow_le_mono_r; lia. }
  pose proof (Z.add_lor_land (h * 128) l) as E. rewrite H0 in E. lia.
Qed.

(** What a group within the payload returns. *)
Lemma group_returns (bpm : Z) (Hbpm : bpm <> 0) (T_elapsed : Q) (data : list byte)
    (a : nat) (d : byte) (loc : Locals) (st : Consumer) :
  nth_error data a = Some d ->
  (a + 3 < length data)%nat ->
  let tm := next_times st loc T_elapsed (byte_int d) in
  exists st',
    group bpm T_elapsed data a loc st =
    (Normal (next_locals loc (byte_int d) tm,
             mkStamp T_elapsed (next_clock loc (byte_int d)) (tm_event tm)),
     st').
Proof.
  intros Hd H tm.
  destruct (in_bounds data (a + 1)) as (s & Hs); [lia|].
  destruct (in_bounds data (a + 2)) as (p & Hp); [lia|].
  destruct (in_bounds data (a + 3)) as (v & Hv); [lia|].
  destruct (Z.eq_dec (Z.land (byte_int s) 15) 0) as [Hch | Hch].
  - destruct (group_dispatched bpm Hbpm T_elapsed data a d s p v Hd Hs Hp Hv loc st Hch)
      as (st' & E & _).
    exists st'. exact E.
  - eexists. apply (group_skipped bpm T_elapsed data a d s Hd Hs loc st Hch).
Qed.




(** No low field at all gives 8192 + 50 after a clock of 8000. *)
Lemma no_clock_8242_after_8000 (low : Z) :
  0 <= low < 128 -> clock (rollover 62 64 low) low <> 8192 + 50.
Proof.
  intros H. rewrite clock_eq by exact H. unfold rollover.
  destruct (low <? 64) eqn:E; [apply Z.ltb_lt in E | apply Z.ltb_ge in E]; lia.
Qed.

(** ** A payload of one byte *)

(** C10 at a payload of one byte: its length passes the test of line 93, and
    the read of [data[1]] on line 98 raises [IndexError], which ends the
    consumer. *)
Theorem one_byte_payload_raises (bpm : Z) (file_name : string) (writable : bool)
    (T_elapsed : Q) (b : byte) (st : Consumer) :
  Z.land (Z.of_nat (length [b]) - 1) 3 = 0 /\
  nth_error [b] 1 = None /\
  packet bpm T_elapsed [b] st =
    (Raised IndexError, with_log st (LogReceived T_elapsed [b])) /\
  run_queue_consumer bpm file_name writable [(T_elapsed, Some [b])] =
    (Failed IndexError, [],
     with_log (start bpm file_name) (LogReceived T_elapsed [b])).
Proof. repeat split. Qed.

(** Every other payload that passes the test of line 93 is read within its
    bounds: no [IndexError], and at a tempo other than 0 no exception at
    all. *)
Lemma longer_payload_in_bounds (bpm : Z) (T_elapsed : Q)
    (data : list byte) (st : Consumer) :
  (Z.of_nat (length data) - 1) mod 4 = 0 ->
  (1 < length data)%nat ->
  (forall st', packet bpm T_elapsed data st <> (Raised IndexError, st')) /\
  (bpm <> 0 -> exists tr st', packet bpm T_elapsed data st = (Normal tr, st')).
Proof.
  intros Hm Hlen.
  destruct (packet_cases bpm T_elapsed data st Hm Hlen)
    as (h & l & _ & _ & [(tr & loc' & st1 & E & _) | (Z0 & st1 & E & _)]);
    rewrite E.
  - split; [discriminate|]. intros _. now exists tr, st1.
  - split; [discriminate|]. intros Hbpm. contradiction.
Qed.

(** ** The time of the event *)

(** While [T_cycle0] is 0, a group fixes it and leaves [N] alone. *)
Lemma event_time_first (T0 : Q) (N : Z) (T_elapsed : Q) (T_packet : Z) :
  Py.eqb T0 0 = true ->
  tm_cycle0 (event_time T0 N T_elapsed T_packet) = (T_elapsed - inject_Z T_packet)%Q /\
  tm_N (event_time T0 N T_elapsed T_packet) = N.
Proof. intros H. unfold event_time. rewrite H. split; reflexivity. Qed.

(** Once [T_cycle0] is not 0, a group leaves it alone and computes the time
    of the event as section 4.1 of the specification says. *)
Lemma event_time_later (T0 : Q) (N : Z) (T_elapsed : Q) (T_packet : Z) :
  Py.eqb T0 0 = false ->
  tm_cycle0 (event_time T0 N T_elapsed T_packet) = T0 /\
  tm_N (event_time T0 N T_elapsed T_packet) = Spec.N T0 T_elapsed /\
  tm_event (event_time T0 N T_elapsed T_packet) = Spec.timestamp T0 T_elapsed T_packet.
Proof. intros H. unfold event_time. rewrite H. repeat split. Qed.

Lemma event_time_N (T0 : Q) (N : Z) (T_elapsed : Q) (T_packet : Z) :
  (Py.eqb T0 0 = true -> N = 0) ->
  event_time T0 N T_elapsed T_packet = event_time T0 0 T_elapsed T_packet.
Proof.
  intros H. unfold event_time. destruct (Py.eqb T0 0).
  - now rewrite H.
  - reflexivity.
Qed.

Lemma unwrapper_app (T0 : Q) (l1 l2 : list (Q * Z)) :
  unwrapper T0 (l1 ++ l2) = unwrapper T0 l1 ++ unwrapper (cycle0_after T0 l1) l2.
Proof.
  revert T0. induction l1 as [|[T tp] l1 IH]; intros T0; simpl.
  - reflexivity.
  - now rewrite IH.
Qed.

Lemma cycle0_after_app (T0 : Q) (l1 l2 : list (Q * Z)) :
  cycle0_after T0 (l1 ++ l2) = cycle0_after (cycle0_after T0 l1) l2.
Proof.
  revert T0. induction l1 as [|[T tp] l1 IH]; intros T0; simpl.
  - reflexivity.
  - now rewrite IH.
Qed.

(** With a first sub-event that fixes an epoch other than 0, the timestamps
    of the sub-events after it are those of the specification. *)
Lemma later_timestamps (T0 : Q) (evs : list (Q * Z)) :
  Py.eqb T0 0 = false ->
  map tm_event (unwrapper T0 evs) =
  map (fun e => Spec.timestamp T0 (fst e) (snd e)) evs /\
  cycle0_after T0 evs = T0.
Proof.
  intros H.
  induction evs as [|[T tp] evs [IH1 IH2]]; cbn [unwrapper map cycle0_after fst snd].
  - split; reflexivity.
  - destruct (event_time_later T0 0 T tp H) as (E0 & _ & Ee).
    rewrite E0, Ee, IH1, IH2. split; reflexivity.
Qed.

Lemma subsequent_timestamps (evs : list (Q * Z)) :
  Py.eqb (Spec.epoch evs) 0 = false ->
  tl (timestamps evs) = Spec.subsequent evs /\
  cycle0_after 0 evs = Spec.epoch evs.
Proof.
  destruct evs as [|[T tp] evs]; [discriminate|].
  cbn [Spec.epoch]. intros H. unfold timestamps, Spec.subsequent.
  cbn [unwrapper map tl cycle0_after Spec.epoch].
  destruct (event_time_first 0 0 T tp eq_refl) as [E0 _]. rewrite E0.
  apply (later_timestamps _ evs H).
Qed.

(** ** The trace of the consumer and the Timestamp Unwrapper *)

Lemma dispatched_T_cycle0 (bpm : Z) (s p v : Z) (T_event : Q)
    (st st' : Consumer) :
  Dispatched bpm s p v T_event st st' -> T_cycle0 st' = T_cycle0 st.
Proof. destruct 1; reflexivity. Qed.

Lemma grouped_times (bpm : Z) (T_elapsed : Q) (loc loc' : Locals)
    (s : Stamp) (st st' : Consumer) :
  Grouped bpm T_elapsed loc st loc' s st' ->
  let tm := event_time (T_cycle0 st) (N_cycle loc) T_elapsed (s_packet s) in
  s_elapsed s = T_elapsed /\
  s_event s = tm_event tm /\
  T_cycle0 st' = tm_cycle0 tm /\
  N_cycle loc' = tm_N tm.
Proof.
  destruct 1 as [d | d s0 p v st' tm0 Hch HD]; cbn; repeat split.
  apply (dispatched_T_cycle0 _ _ _ _ _ _ _ HD).
Qed.

Lemma iterated_unwrapper (bpm : Z) (T_elapsed : Q) (loc loc' : Locals)
    (tr : list Stamp) (st st' : Consumer) :
  Iterated bpm T_elapsed loc st tr loc' st' ->
  (Py.eqb (T_cycle0 st) 0 = true -> N_cycle loc = 0) ->
  map tm_event (unwrapper (T_cycle0 st) (inputs tr)) = events tr /\
  T_cycle0 st' = cycle0_after (T_cycle0 st) (inputs tr).
Proof.
  induction 1 as [loc st | loc st loc1 loc2 st1 st2 s tr HG HI IH]; intros HN.
  - split; reflexivity.
  - destruct (grouped_times _ _ _ _ _ _ _ HG) as (Ea & Ee & Ec & En).
    rewrite (event_time_N _ _ _ _ HN) in Ee, Ec, En.
    cbn [inputs events map unwrapper cycle0_after]. rewrite Ea.
    rewrite <- Ec, <- Ee.
    destruct IH as [IH1 IH2].
    + intros Hz. rewrite En.
      destruct (Py.eqb (T_cycle0 st) 0) eqn:E0.
      * apply (event_time_first _ 0 T_elapsed (s_packet s) E0).
      * destruct (event_time_later _ 0 T_elapsed (s_packet s) E0) as (E1 & _).
        rewrite Ec, E1, E0 in Hz. discriminate.
    + split; [f_equal; exact IH1 | exact IH2].
Qed.

(** The two kinds of message. *)
Lemma disconnect_eq (writable : bool) (st : Consumer) :
  disconnect writable st =
  if writable then (Normal tt, disconnected st) else (Raised OSError, closed st).
Proof.
  unfold disconnect, disconnected, closed, open_wb.
  destruct writable; destruct st as [T0 [|ev E] F O P D L]; cbn;
    rewrite <- ?app_assoc; reflexivity.
Qed.

Lemma message_packet (bpm : Z) (writable : bool) (T_elapsed : Q) (data : list byte)
    (st : Consumer) :
  message bpm writable (T_elapsed, Some data) st =
  match packet bpm T_elapsed data st with
  | (Normal tr, st') => (Normal (Continue, tr), st')
  | (Raised e, st') => (Raised e, st')
  end.
Proof.
  unfold message. cbn [fst snd]. unfold bind.
  destruct (packet bpm T_elapsed data st) as [[tr | e] st']; reflexivity.
Qed.

Lemma message_disconnect (bpm : Z) (writable : bool) (T_elapsed : Q) (st : Consumer) :
  message bpm writable (T_elapsed, None) st =
  if writable then (Normal (Break, []), disconnected st)
  else (Raised OSError, closed st).
Proof.
  unfold message. cbn [fst snd]. unfold bind. rewrite disconnect_eq.
  destruct writable; reflexivity.
Qed.

(** A message either is processed to its end, with stamps that are those of
    the Timestamp Unwrapper, or is left by an exception: the [IndexError] of
    a payload of one byte, the [ZeroDivisionError] of [quarter()] at tempo
    0, or the [OSError] of [open] at the end of the session. *)
Lemma message_outcome (bpm : Z) (writable : bool) (m : Message) (st : Consumer) :
  (exists nx tr st',
     message bpm writable m st = (Normal (nx, tr), st') /\
     map tm_event (unwrapper (T_cycle0 st) (inputs tr)) = events tr /\
     T_cycle0 st' = cycle0_after (T_cycle0 st) (inputs tr)) \/
  (exists b,
     snd m = Some [b] /\
     message bpm writable m st =
     (Raised IndexError, with_log st (LogReceived (fst m) [b]))) \/
  (bpm = 0 /\
   exists data st',
     snd m = Some data /\
     message bpm writable m st = (Raised ZeroDivisionError, st')) \/
  (writable = false /\ snd m = None /\
   message bpm writable m st = (Raised OSError, closed st)).
Proof.
  destruct m as [T [data|]]; cbn [fst snd].
  - rewrite message_packet.
    destruct (length_cases data) as [H | [[b ->] | [Hm Hlen]]].
    + left. do 3 eexists. split.
      * rewrite (packet_rejected bpm T data st H). reflexivity.
      * split; reflexivity.
    + right. left. exists b. split; reflexivity.
    + destruct (packet_cases bpm T data st Hm Hlen)
        as (h & l & _ & _ & [(tr & loc' & st' & E & HI) | (Z0 & st' & E & _)]);
        rewrite E.
      * left. exists Continue, tr, st'. split; [reflexivity|].
        apply (iterated_unwrapper _ _ _ _ _ _ _ HI). reflexivity.
      * right. right. left. split; [exact Z0|]. now exists data, st'.
  - rewrite message_disconnect. destruct writable.
    + left. do 3 eexists. split; [reflexivity|]. split; reflexivity.
    + right. right. right. repeat split.
Qed.

(** The event times of a session are the timestamps that the Timestamp
    Unwrapper gives to its sub-events. *)
Lemma while_true_unwrapper (bpm : Z) (writable : bool) (q : list Message)
    (st : Consumer) :
  map tm_event
    (unwrapper (T_cycle0 st) (inputs (snd (fst (while_true bpm writable q st))))) =
  events (snd (fst (while_true bpm writable q st))).
Proof.
  revert st. induction q as [|m q IH]; intros st; cbn [while_true].
  - reflexivity.
  - destruct (message_outcome bpm writable m st)
      as [(nx & tr & st' & E & H1 & H2)
         | [(b & _ & E) | [(_ & data & st' & _ & E) | (_ & _ & E)]]]; rewrite E;
      try reflexivity.
    destruct nx.
    + specialize (IH st'). destruct (while_true bpm writable q st') as [[s tr'] st''].
      cbn [fst snd] in *. unfold inputs, events in *.
      rewrite !map_app, unwrapper_app, map_app.
      rewrite <- H2. rewrite IH, H1. reflexivity.
    + cbn [fst snd]. assumption.
Qed.

Lemma run_queue_consumer_unwrapper (bpm : Z) (file_name : string) (writable : bool)
    (q : list Message) :
  let tr := snd (fst (run_queue_consumer bpm file_name writable q)) in
  timestamps (inputs tr) = events tr.
Proof. apply (while_true_unwrapper bpm writable q (start bpm file_name)). Qed.

(** ** The epoch *)

(** C1 at a session whose first sub-event arrives after 100 ms with a clock
    of 100: the epoch is 100 - 100 = 0, which line 107 takes for "not set".
    The second sub-event (arrival 10000, clock 1800) fixes the epoch again
    and gets the time 10000, where the algorithm of the specification from
    the epoch 0 gives 0 + 8192 * 1 + 1800 = 9992. *)
Theorem second_event_after_epoch_zero :
  let q := [(100%Q, Some (bytes [0; 100; 144; 60; 100]));
            (10000%Q, Some (bytes [14; 8; 128; 60; 0]))] in
  let tr := snd (fst (run_queue_consumer 120 "Track1" true q)) in
  inputs tr = [(100%Q, 100); (10000%Q, 1800)] /\
  Spec.epoch (inputs tr) = (100 - 100)%Q /\
  Spec.subsequent (inputs tr) = [9992%Q] /\
  tl (events tr) = [10000%Q].
Proof. vm_compute. repeat split. Qed.

(** C3 at a session of three packets with the clocks 100, 150 and 350 that
    arrive after 100, 300 and 500 ms: the first sub-event fixes the epoch
    100 - 100 = 0, the second fixes it again, as 300 - 150 = 150, and from
    then on it stays. *)
Theorem epoch_zero_fixed_again :
  let p1 := (100%Q, Some (bytes [0; 100; 144; 60; 100])) in
  let p2 := (300%Q, Some (bytes [1; 22; 128; 60; 0])) in
  let p3 := (500%Q, Some (bytes [2; 94; 144; 62; 90])) in
  let run q := run_queue_consumer 120 "Track1" true q in
  clocks (snd (fst (run [p1; p2; p3]))) = [100; 150; 350] /\
  T_cycle0 (snd (run [p1])) = (100 - 100)%Q /\
  T_cycle0 (snd (run [p1; p2])) = 150%Q /\
  T_cycle0 (snd (run [p1; p2; p3])) = 150%Q.
Proof. vm_compute. repeat split. Qed.

(** ** Monotone timestamps *)

Lemma inject_Z_div_mod (t : Z) :
  (inject_Z t == 8192 * inject_Z (t / 8192) + inject_Z (t mod 8192))%Q /\
  (0 <= inject_Z (t mod 8192) < 8192)%Q.
Proof.
  pose proof (Z.div_mod t 8192 ltac:(lia)) as E.
  pose proof (Z.mod_pos_bound t 8192 ltac:(lia)) as [Hlo Hhi].
  split.
  - rewrite E at 1. rewrite inject_Z_plus, inject_Z_mult. reflexivity.
  - split.
    + change 0%Q with (inject_Z 0). rewrite <- Zle_Qle. exact Hlo.
    + change 8192%Q with (inject_Z 8192). rewrite <- Zlt_Qlt. exact Hhi.
Qed.

(** When the host, measured from the epoch, is within 4096 ms of the device,
    the time of the event is the epoch plus the time of the device. *)
Lemma event_time_exact (epoch a : Q) (tau N : Z) :
  Py.eqb epoch 0 = false ->
  Py.ltb (Qabs (a - epoch - inject_Z tau)) 4096 = true ->
  tm_cycle0 (event_time epoch N a (tau mod 8192)) = epoch /\
  (tm_event (event_time epoch N a (tau mod 8192)) == epoch + inject_Z tau)%Q.
Proof.
  intros H0 Hoff. unfold event_time. rewrite H0. cbn [tm_cycle0 tm_event].
  split; [reflexivity|].
  apply ltb_lt, Qabs_Qlt_condition in Hoff.
  pose proof (floordiv_mod (a - epoch)) as Hx.
  pose proof (mod_bounds (a - epoch)) as HDT.
  destruct (inject_Z_div_mod tau) as [Ht Hlc].
  set (n := Py.floordiv (a - epoch) 8192) in *.
  set (DT := Py.mod_ (a - epoch) 8192) in *.
  set (k := tau / 8192) in *.
  set (lc := tau mod 8192) in *.
  assert (Hd : (-4096 < 8192 * (inject_Z n - inject_Z k) + (DT - inject_Z lc) < 4096)%Q)
    by (split; lra).
  assert (HM : (if time_error DT lc
                then if Py.ltb DT (inject_Z lc) then n - 1 else n + 1
                else n) = k).
  { unfold time_error.
    destruct (Py.ltb 4096 (Qabs (DT - inject_Z lc))) eqn:Eerr.
    - apply ltb_lt in Eerr.
      destruct (Py.ltb DT (inject_Z lc)) eqn:Elt.
      + apply ltb_lt in Elt.
        rewrite Qabs_neg in Eerr by lra.
        assert (n - k < 2)%Z by (rewrite Zlt_Qlt; unfold Z.sub; rewrite inject_Z_plus, inject_Z_opp;
                                 change (inject_Z 2) with 2%Q; lra).
        assert (0 < n - k)%Z by (rewrite Zlt_Qlt; unfold Z.sub; rewrite inject_Z_plus, inject_Z_opp;
                                 change (inject_Z 0) with 0%Q; lra).
        lia.
      + apply ltb_ge in Elt.
        rewrite Qabs_pos in Eerr by lra.
        assert (n - k < 0)%Z by (rewrite Zlt_Qlt; unfold Z.sub; rewrite inject_Z_plus, inject_Z_opp;
                                 change (inject_Z 0) with 0%Q; lra).
        assert (-2 < n - k)%Z by (rewrite Zlt_Qlt; unfold Z.sub; rewrite inject_Z_plus, inject_Z_opp;
                                  change (inject_Z (-2)) with (-2)%Q; lra).
        lia.
    - apply ltb_ge, Qabs_Qle_condition in Eerr.
      assert (n - k < 1)%Z by (rewrite Zlt_Qlt; unfold Z.sub; rewrite inject_Z_plus, inject_Z_opp;
                               change (inject_Z 1) with 1%Q; lra).
      assert (-1 < n - k)%Z by (rewrite Zlt_Qlt; unfold Z.sub; rewrite inject_Z_plus, inject_Z_opp;
                                change (inject_Z (-1)) with (-1)%Q; lra).
      lia. }
  rewrite HM. rewrite Ht. ring.
Qed.

(** The first sub-event of a session: its time is its arrival time. *)
Lemma event_time_start (a0 : Q) (tau0 : Z) :
  0 <= tau0 < 8192 ->
  tm_cycle0 (event_time 0 0 a0 tau0) = (a0 - inject_Z tau0)%Q /\
  (tm_event (event_time 0 0 a0 tau0) == a0)%Q.
Proof.
  intros Ht. unfold event_time. change (Py.eqb 0 0) with true.
  cbn [tm_cycle0 tm_event]. split; [reflexivity|].
  pose proof (floordiv_mod (a0 - (a0 - inject_Z tau0))) as Hx.
  pose proof (mod_bounds (a0 - (a0 - inject_Z tau0))) as HDT.
  set (n := Py.floordiv (a0 - (a0 - inject_Z tau0)) 8192) in *.
  set (DT := Py.mod_ (a0 - (a0 - inject_Z tau0)) 8192) in *.
  assert (Hlo : (0 <= inject_Z tau0)%Q)
    by (change 0%Q with (inject_Z 0); rewrite <- Zle_Qle; lia).
  assert (Hhi : (inject_Z tau0 < 8192)%Q)
    by (change 8192%Q with (inject_Z 8192); rewrite <- Zlt_Qlt; lia).
  assert (Hn : n = 0).
  { assert (n < 1)%Z by (rewrite Zlt_Qlt; change (inject_Z 1) with 1%Q; lra).
    assert (-1 < n)%Z by (rewrite Zlt_Qlt; change (inject_Z (-1)) with (-1)%Q; lra).
    lia. }
  rewrite Hn in Hx. change (inject_Z 0) with 0%Q in Hx.
  assert (E : time_error DT tau0 = false).
  { unfold time_error. apply ltb_ge, Qabs_Qle_condition. split; lra. }
  rewrite E. change (inject_Z 0) with 0%Q. ring.
Qed.

Lemma unwrapper_exact (epoch : Q) (rest : Scenario) :
  Py.eqb epoch 0 = false ->
  offset_bounded epoch rest = true ->
  Forall2 (fun t e => t == epoch + inject_Z (snd e))%Q
          (map tm_event (unwrapper epoch (sub_events rest))) rest.
Proof.
  intros H0. induction rest as [|[a tau] rest IH]; intros Hoff.
  - constructor.
  - cbn [offset_bounded forallb fst snd] in Hoff.
    apply andb_true_iff in Hoff. destruct Hoff as [Ha Hrest].
    destruct (event_time_exact epoch a tau 0 H0 Ha) as [Ec Ee].
    cbn [sub_events map unwrapper fst snd]. rewrite Ec.
    constructor; [exact Ee | apply IH; exact Hrest].
Qed.

Lemma nondecreasing_exact (epoch : Q) (ts : list Q) (sc : Scenario) :
  Forall2 (fun t e => t == epoch + inject_Z (snd e))%Q ts sc ->
  nondecreasingZ (map snd sc) = true ->
  nondecreasing ts = true.
Proof.
  induction 1 as [|t e ts sc Ht HF IH]; intros Hm; [reflexivity|].
  destruct HF as [|t' e' ts' sc' Ht' HF']; [reflexivity|].
  cbn [map nondecreasingZ] in Hm. apply andb_true_iff in Hm.
  destruct Hm as [Hle Hm]. apply Z.leb_le in Hle.
  cbn [nondecreasing]. apply andb_true_iff. split.
  - apply Qle_bool_iff. rewrite Ht, Ht'.
    rewrite Zle_Qle in Hle. lra.
  - apply IH. exact Hm.
Qed.

(** The timestamps of such a session are the epoch plus the times of the
    device. *)
Lemma timestamps_exact (a0 : Q) (tau0 : Z) (rest : Scenario) :
  0 <= tau0 < 8192 ->
  Py.eqb (a0 - inject_Z tau0) 0 = false ->
  offset_bounded (a0 - inject_Z tau0) rest = true ->
  Forall2 (fun t e => t == (a0 - inject_Z tau0) + inject_Z (snd e))%Q
          (timestamps (sub_events ((a0, tau0) :: rest))) ((a0, tau0) :: rest).
Proof.
  intros Ht H0 Hoff. unfold timestamps.
  cbn [sub_events map unwrapper fst snd].
  rewrite (Z.mod_small tau0 8192 Ht).
  destruct (event_time_start a0 tau0 Ht) as [Ec Ee]. rewrite Ec.
  constructor.
  - rewrite Ee. cbn [snd]. ring.
  - apply unwrapper_exact; assumption.
Qed.

Lemma unwrapper_nondecreasing (a0 : Q) (tau0 : Z) (rest : Scenario) :
  0 <= tau0 < 8192 ->
  Py.eqb (a0 - inject_Z tau0) 0 = false ->
  nondecreasingZ (map snd ((a0, tau0) :: rest)) = true ->
  offset_bounded (a0 - inject_Z tau0) rest = true ->
  nondecreasing (timestamps (sub_events ((a0, tau0) :: rest))) = true.
Proof.
  intros Ht H0 Hm Hoff.
  apply (nondecreasing_exact (a0 - inject_Z tau0) _ ((a0, tau0) :: rest)).
  - apply timestamps_exact; assumption.
  - exact Hm.
Qed.

(** C2, as amended.  In a session whose sub-events carry the times of the
    device wrapped to 13 bits, when the times of the device do not decrease,
    the first sub-event fixes an epoch other than 0, and at every sub-event
    the time of the host since the epoch is within 4096 ms of the time of
    the device, the event times that the consumer computes do not decrease
    from one sub-event to the next. *)
Theorem timestamps_nondecreasing (bpm : Z) (file_name : string) (writable : bool)
    (q : list Message) (a0 : Q) (tau0 : Z) (rest : Scenario) :
  inputs (snd (fst (run_queue_consumer bpm file_name writable q))) =
    sub_events ((a0, tau0) :: rest) ->
  0 <= tau0 < 8192 ->
  Py.eqb (a0 - inject_Z tau0) 0 = false ->
  nondecreasingZ (map snd ((a0, tau0) :: rest)) = true ->
  offset_bounded (a0 - inject_Z tau0) rest = true ->
  nondecreasing (events (snd (fst (run_queue_consumer bpm file_name writable q)))) = true.
Proof.
  intros Hin Ht H0 Hm Hoff.
  rewrite <- (run_queue_consumer_unwrapper bpm file_name writable q). rewrite Hin.
  apply unwrapper_nondecreasing; assumption.
Qed.

Lemma timestamps_nondecreasing_witness :
  nondecreasing
    (events (snd (fst (run_queue_consumer 120 "Track1" true
       [(1000%Q, Some (bytes [0; 0; 144; 60; 100]));
        (6000%Q, Some (bytes [42; 124; 128; 60; 0]));
        (9500%Q, Some (bytes [6; 40; 176; 1; 2]))])))) = true.
Proof.
  apply (timestamps_nondecreasing 120 "Track1" true
           [(1000%Q, Some (bytes [0; 0; 144; 60; 100]));
            (6000%Q, Some (bytes [42; 124; 128; 60; 0]));
            (9500%Q, Some (bytes [6; 40; 176; 1; 2]))]
           1000 0 [(6000%Q, 5500); (9500%Q, 9000)]).
  - reflexivity.
  - lia.
  - reflexivity.
  - reflexivity.
  - reflexivity.
Defined.

(** C2, as stated: a session of three sub-events in which neither the host
    nor the device goes back and they drift apart by 3000 ms and by 2192 ms
    over the two gaps.  The timestamps are 1000, 9000 and 3001. *)
Lemma gap_drift_not_monotone :
  let sc := [(1000%Q, 0); (6000%Q, 8000); (6001%Q, 10193)] in
  nondecreasing (map fst sc) = true /\
  nondecreasingZ (map snd sc) = true /\
  gap_drift_bounded sc = true /\
  Py.eqb (Spec.epoch (sub_events sc)) 0 = false /\
  timestamps (sub_events sc) = [1000%Q; 9000%Q; 3001%Q] /\
  nondecreasing (timestamps (sub_events sc)) = false /\
  events (snd (fst (run_queue_consumer 120 "Track1" true
    [(1000%Q, Some (bytes [0; 0; 176; 1; 2]));
     (6000%Q, Some (bytes [62; 64; 176; 1; 3]));
     (6001%Q, Some (bytes [15; 81; 176; 1; 4]))]))) = [1000%Q; 9000%Q; 3001%Q].
Proof. vm_compute. repeat split. Qed.

(** ** The durations of the notes *)

(** At a positive tempo the quarter note has a positive length. *)
Lemma quarter_pos (bpm : Z) : 0 < bpm -> (0 < quarter_ms bpm)%Q.
Proof.
  intros H. unfold quarter_ms. apply Qlt_shift_div_l.
  - change 0%Q with (inject_Z 0). rewrite <- Zlt_Qlt. exact H.
  - reflexivity.
Qed.

Lemma duration_nonneg (bpm : Z) (Hpos : 0 < bpm) (t0 te : Q) :
  (t0 <= te)%Q -> Qle_bool 0 ((te - t0) / quarter_ms bpm) = true.
Proof.
  intros H. apply Qle_bool_iff. apply Qle_shift_div_l.
  - apply quarter_pos, Hpos.
  - lra.
Qed.

Lemma last_cons {A} (x d : A) (l : list A) : last (x :: l) d = last l x.
Proof.
  revert x d. induction l as [|y l IH]; intros x d; [reflexivity|].
  change (last (x :: y :: l) d) with (last (y :: l) d).
  rewrite (IH y d), (IH y x). reflexivity.
Qed.

Lemma nondecreasing_app (b : Q) (l1 l2 : list Q) :
  nondecreasing (b :: l1 ++ l2) = true ->
  nondecreasing (b :: l1) = true /\ nondecreasing (last l1 b :: l2) = true.
Proof.
  revert b. induction l1 as [|x l1 IH]; intros b H.
  - split; [reflexivity | exact H].
  - change (nondecreasing (b :: x :: l1 ++ l2))
      with (Qle_bool b x && nondecreasing (x :: l1 ++ l2)) in H.
    apply andb_true_iff in H. destruct H as [Hb H].
    destruct (IH x H) as [H1 H2]. rewrite last_cons. split; [|exact H2].
    change (nondecreasing (b :: x :: l1)) with (Qle_bool b x && nondecreasing (x :: l1)).
    now rewrite Hb, H1.
Qed.

Lemma dispatched_durations (bpm : Z) (Hpos : 0 < bpm) (s p v : Z) (T_event : Q)
    (st st' : Consumer) :
  Dispatched bpm s p v T_event st st' ->
  Forall (fun ev => ev0 ev <= T_event)%Q (E_ON st) ->
  forallb duration_ok (midi_file st) = true ->
  Forall (fun ev => ev0 ev <= T_event)%Q (E_ON st') /\
  forallb duration_ok (midi_file st') = true.
Proof.
  intros HD HE HF. destruct HD as [l1 l2 ev Hs E Hl1 Hev | | | | | ];
    cbn [E_ON midi_file]; try (split; assumption).
  - rewrite E in HE. apply Forall_app in HE. destruct HE as [H1 H2].
    inversion H2 as [|? ? Hev0 H3]; subst. split.
    + apply Forall_app. split; assumption.
    + rewrite forallb_app, HF. cbn [forallb duration_ok].
      now rewrite (duration_nonneg bpm Hpos _ _ Hev0).
  - split; [|exact HF]. apply Forall_app. split; [exact HE|].
    constructor; [apply Qle_refl | constructor].
  - split; [exact HE|]. rewrite forallb_app, HF. reflexivity.
Qed.

Lemma grouped_durations (bpm : Z) (Hpos : 0 < bpm) (T_elapsed : Q) (loc loc' : Locals)
    (s : Stamp) (st st' : Consumer) :
  Grouped bpm T_elapsed loc st loc' s st' ->
  Forall (fun ev => ev0 ev <= s_event s)%Q (E_ON st) ->
  forallb duration_ok (midi_file st) = true ->
  Forall (fun ev => ev0 ev <= s_event s)%Q (E_ON st') /\
  forallb duration_ok (midi_file st') = true.
Proof.
  destruct 1 as [d | d s0 p v st' tm Hch HD]; cbn [s_event]; intros HE HF.
  - split; assumption.
  - apply (dispatched_durations _ Hpos _ _ _ _ _ _ HD); assumption.
Qed.

Lemma iterated_durations (bpm : Z) (Hpos : 0 < bpm) (T_elapsed : Q) (loc loc' : Locals)
    (tr : list Stamp) (st st' : Consumer) :
  Iterated bpm T_elapsed loc st tr loc' st' ->
  forall b : Q,
  nondecreasing (b :: events tr) = true ->
  Forall (fun ev => ev0 ev <= b)%Q (E_ON st) ->
  forallb duration_ok (midi_file st) = true ->
  Forall (fun ev => ev0 ev <= last (events tr) b)%Q (E_ON st') /\
  forallb duration_ok (midi_file st') = true.
Proof.
  induction 1 as [loc st | loc st loc1 loc2 st1 st2 s tr HG HI IH];
    intros b Hnd HE HF.
  - split; assumption.
  - change (nondecreasing (b :: events (s :: tr)))
      with (Qle_bool b (s_event s) && nondecreasing (s_event s :: events tr)) in Hnd.
    apply andb_true_iff in Hnd. destruct Hnd as [Hb Hnd].
    apply Qle_bool_iff in Hb.
    assert (HE' : Forall (fun ev => ev0 ev <= s_event s)%Q (E_ON st)).
    { eapply Forall_impl; [|exact HE]. intros ev Hev. cbn beta in Hev.
      apply Qle_trans with b; assumption. }
    destruct (grouped_durations _ Hpos _ _ _ _ _ _ HG HE' HF) as [HE1 HF1].
    change (events (s :: tr)) with (s_event s :: events tr). rewrite last_cons.
    apply IH; assumption.
Qed.

(** The cases of a message at a tempo other than 0. *)
Lemma message_cases (bpm : Z) (Hbpm : bpm <> 0) (writable : bool) (m : Message)
    (st : Consumer) :
  (exists tr st',
     message bpm writable m st = (Normal (Break, tr), st') /\
     tr = [] /\ E_ON st' = E_ON st /\ midi_file st' = midi_file st) \/
  (exists st',
     message bpm writable m st = (Normal (Continue, []), st') /\
     E_ON st' = E_ON st /\ midi_file st' = midi_file st) \/
  (exists e st',
     message bpm writable m st = (Raised e, st') /\
     E_ON st' = E_ON st /\ midi_file st' = midi_file st) \/
  (exists loc st0 tr loc' st',
     message bpm writable m st = (Normal (Continue, tr), st') /\
     E_ON st0 = E_ON st /\ midi_file st0 = midi_file st /\
     Iterated bpm (fst m) loc st0 tr loc' st').
Proof.
  destruct m as [T [data|]]; cbn [fst snd].
  - destruct (length_cases data) as [H | [[b ->] | [Hm Hlen]]].
    + right. left. eexists. split.
      * unfold message. cbn [fst snd]. unfold bind at 1.
        rewrite (packet_rejected bpm T data st H). reflexivity.
      * split; reflexivity.
    + right. right. left. do 2 eexists. split; [reflexivity|]. split; reflexivity.
    + right. right. right.
      destruct (packet_iterated bpm Hbpm T data st Hm Hlen)
        as (h & l & tr & loc' & st' & _ & _ & E & HI).
      do 5 eexists. split.
      * unfold message. cbn [fst snd]. unfold bind at 1. rewrite E. reflexivity.
      * split; [|split; [|exact HI]]; reflexivity.
  - rewrite message_disconnect. destruct writable.
    + left. do 2 eexists. split; [reflexivity|]. repeat split.
    + right. right. left. do 2 eexists. split; [reflexivity|]. repeat split.
Qed.

Lemma while_true_durations (bpm : Z) (Hpos : 0 < bpm) (writable : bool)
    (q : list Message) (st : Consumer) (b : Q) :
  nondecreasing (b :: events (snd (fst (while_true bpm writable q st)))) = true ->
  Forall (fun ev => ev0 ev <= b)%Q (E_ON st) ->
  forallb duration_ok (midi_file st) = true ->
  forallb duration_ok (midi_file (snd (while_true bpm writable q st))) = true.
Proof.
  revert st b. induction q as [|m q IH]; intros st b; cbn [while_true].
  - intros _ _ H. exact H.
  - destruct (message_cases bpm ltac:(lia) writable m st)
      as [(tr & st' & E & -> & HE & HF)
         | [(st' & E & HE & HF)
           | [(e & st' & E & HE & HF)
             | (loc & st0 & tr & loc' & st' & E & HE & HF & HI)]]];
      rewrite E.
    + cbn [fst snd]. intros _ _ H. now rewrite HF.
    + specialize (IH st' b). destruct (while_true bpm writable q st') as [[s tr'] st''].
      cbn [fst snd app] in *. intros Hnd H1 H2.
      apply IH; [exact Hnd | now rewrite HE | now rewrite HF].
    + cbn [fst snd]. intros _ _ H. now rewrite HF.
    + specialize (IH st' (last (events tr) b)).
      destruct (while_true bpm writable q st') as [[s tr'] st''].
      cbn [fst snd] in *. intros Hnd H1 H2.
      unfold events in Hnd. rewrite map_app in Hnd. fold (events tr) in Hnd.
      fold (events tr') in Hnd.
      apply nondecreasing_app in Hnd. destruct Hnd as [Hnd1 Hnd2].
      rewrite <- HE in H1. rewrite <- HF in H2.
      destruct (iterated_durations _ Hpos _ _ _ _ _ _ HI b Hnd1 H1 H2) as [H3 H4].
      apply IH; assumption.
Qed.

(** C4, as amended.  The duration of a note of the Timeline is the time of
    its note-off minus the onset of the pending note, in beats; at a
    positive tempo, in a session whose event times do not decrease from one
    sub-event to the next, no note of the Timeline has a negative
    duration. *)
Theorem durations_nonnegative (bpm : Z) (file_name : string) (writable : bool)
    (q : list Message) :
  0 < bpm ->
  nondecreasing (events (snd (fst (run_queue_consumer bpm file_name writable q)))) = true ->
  forallb duration_ok (midi_file (snd (run_queue_consumer bpm file_name writable q))) = true.
Proof.
  intros Hpos H. unfold run_queue_consumer in *.
  apply (while_true_durations bpm Hpos writable q (start bpm file_name)
           (hd 0%Q (events (snd (fst (while_true bpm writable q (start bpm file_name))))))).
  - destruct (events _) as [|e l]; [reflexivity|].
    cbn [hd]. change (nondecreasing (e :: e :: l))
      with (Qle_bool e e && nondecreasing (e :: l)).
    rewrite H. rewrite (proj2 (Qle_bool_iff e e) (Qle_refl e)). reflexivity.
  - constructor.
  - reflexivity.
Qed.

Lemma durations_nonnegative_witness :
  forallb duration_ok
    (midi_file (snd (run_queue_consumer 120 "Track1" true
       [(1000%Q, Some (bytes [0; 100; 144; 60; 100]));
        (2000%Q, Some (bytes [7; 228; 128; 60; 0]))]))) = true.
Proof.
  apply (durations_nonnegative 120 "Track1" true
           [(1000%Q, Some (bytes [0; 100; 144; 60; 100]));
            (2000%Q, Some (bytes [7; 228; 128; 60; 0]))]).
  - lia.
  - vm_compute. reflexivity.
Defined.

(** C4, as stated: a note-on at clock 8191 in a packet that arrives after
    5000 ms, and its note-off at clock 5000 in a packet that arrives 1 ms
    later.  The note-on gets the time 5000, the note-off the time 1809, and
    the note of the Timeline a duration of -3191 ms. *)
Lemma note_with_negative_duration :
  let '(_, tr, st) :=
    run_queue_consumer 120 "Track1" true
      [(5000%Q, Some (bytes [63; 127; 144; 60; 100]));
       (5001%Q, Some (bytes [39; 8; 128; 60; 0]))] in
  events tr = [5000%Q; 1809%Q] /\
  midi_file st =
    [TrackName 0 0 "Track1"; Tempo 0 0 120;
     Note 0 0 60 (5000 / quarter_ms 120) ((1809 - 5000) / quarter_ms 120) 100] /\
  ((1809 - 5000) / quarter_ms 120 < 0)%Q /\
  forallb duration_ok (midi_file st) = false.
Proof. vm_compute. repeat split. Qed.

(** The condition on the tempo: at tempo -120 the same note-on, and its
    note-off 1000 ms later by both clocks, give event times that do not
    decrease and a note of -2 beats. *)
Example note_at_negative_tempo :
  let '(_, tr, st) :=
    run_queue_consumer (-120) "Track1" true
      [(1000%Q, Some (bytes [0; 100; 144; 60; 100]));
       (2000%Q, Some (bytes [8; 76; 128; 60; 0]))] in
  events tr = [1000%Q; 2000%Q] /\
  nondecreasing (events tr) = true /\
  midi_file st =
    [TrackName 0 0 "Track1"; Tempo 0 0 (-120);
     Note 0 0 60 (1000 / quarter_ms (-120)) (1000 / quarter_ms (-120)) 100] /\
  (1000 / quarter_ms (-120) == -2)%Q /\
  forallb duration_ok (midi_file st) = false.
Proof. vm_compute. repeat split. Qed.

(** At tempo 0 the note-off of a pending note is sent to the port and then
    [quarter()] raises: the consumer is left with the note still pending
    and nothing added to the Timeline. *)
Example note_at_tempo_zero :
  let '(s, tr, st) :=
    run_queue_consumer 0 "Track1" true
      [(1000%Q, Some (bytes [0; 100; 144; 60; 100]));
       (2000%Q, Some (bytes [7; 228; 128; 60; 0]))] in
  s = Failed ZeroDivisionError /\
  midi_out st = [[144; 60; 100]; [128; 60; 0]] /\
  midi_file st = [TrackName 0 0 "Track1"; Tempo 0 0 0] /\
  E_ON st = [(1000%Q, 60, 100)] /\
  port_open st = true /\ disk st = None.
Proof. vm_compute. repeat split. Qed.

(** ** Two consumers *)

Lemma resume_done (bpm : Z) (writable : bool) (i : Instance) :
  i_status i <> Waiting -> resume bpm writable i = i.
Proof.
  intros H. unfold resume. destruct (i_status i); [contradiction | reflexivity ..].
Qed.

Lemma iter_resume_done (bpm : Z) (writable : bool) (n : nat) (i : Instance) :
  i_status i <> Waiting -> Nat.iter n (resume bpm writable) i = i.
Proof.
  intros H. induction n as [|n IH]; [reflexivity|].
  rewrite Nat.iter_succ, IH. now apply resume_done.
Qed.

(** A consumer that was resumed at least once for every message of its queue
    stands where the [while] loop on that queue leaves it. *)
Lemma iter_resume (bpm : Z) (writable : bool) (q : list Message) (st : Consumer) (n : nat) :
  (length q <= n)%nat ->
  let i := Nat.iter n (resume bpm writable) (mkInstance Waiting st q) in
  i_status i = fst (fst (while_true bpm writable q st)) /\
  i_state i = snd (while_true bpm writable q st).
Proof.
  revert st n. induction q as [|m q IH]; intros st n Hn.
  - cbn [while_true fst snd].
    assert (E : Nat.iter n (resume bpm writable) (mkInstance Waiting st []) =
                mkInstance Waiting st []).
    { clear Hn. induction n as [|n IHn]; [reflexivity|].
      rewrite Nat.iter_succ, IHn. reflexivity. }
    cbn zeta. rewrite E. split; reflexivity.
  - destruct n as [|n]; [simpl in Hn; lia|].
    cbn zeta. rewrite Nat.iter_succ_r.
    assert (Er : resume bpm writable (mkInstance Waiting st (m :: q)) =
                 match message bpm writable m st with
                 | (Normal (Break, _), st') => mkInstance Returned st' q
                 | (Normal (Continue, _), st') => mkInstance Waiting st' q
                 | (Raised e, st') => mkInstance (Failed e) st' q
                 end) by reflexivity.
    rewrite Er. clear Er. cbn [while_true].
    destruct (message bpm writable m st) as [[[[|] tr] | e] st']; cbn iota beta.
    + specialize (IH st' n ltac:(simpl in Hn; lia)). cbn zeta in IH.
      destruct (while_true bpm writable q st') as [[s tr'] st'']. exact IH.
    + rewrite iter_resume_done by discriminate. split; reflexivity.
    + rewrite iter_resume_done by discriminate. split; reflexivity.
Qed.

Lemma event_loop_iter (bpm : Z) (writable : bool) (sched : list bool) (a b : Instance) :
  event_loop bpm writable sched a b =
  (Nat.iter (count_occ bool_dec sched true) (resume bpm writable) a,
   Nat.iter (count_occ bool_dec sched false) (resume bpm writable) b).
Proof.
  revert a b. induction sched as [|[|] sched IH]; intros a b.
  - reflexivity.
  - cbn [event_loop]. rewrite IH.
    rewrite count_occ_cons_eq by reflexivity.
    rewrite count_occ_cons_neq by discriminate.
    now rewrite Nat.iter_succ_r.
  - cbn [event_loop]. rewrite IH.
    rewrite count_occ_cons_neq by discriminate.
    rewrite count_occ_cons_eq by reflexivity.
    now rewrite Nat.iter_succ_r.
Qed.

(** C9.  Two consumers of one event loop that get the same messages with
    the same arrival times, resumed in any order until each has been resumed
    for every message, end in the same state: the same Timeline, the same
    file on disk, and both as the consumer that runs alone. *)
Theorem two_instances_same_timeline (bpm : Z) (file_name : string) (writable : bool)
    (q : list Message) (sched : list bool) :
  (length q <= count_occ bool_dec sched true)%nat ->
  (length q <= count_occ bool_dec sched false)%nat ->
  let a := fst (event_loop bpm writable sched (spawn bpm file_name q) (spawn bpm file_name q)) in
  let b := snd (event_loop bpm writable sched (spawn bpm file_name q) (spawn bpm file_name q)) in
  midi_file (i_state a) = midi_file (i_state b) /\
  disk (i_state a) = disk (i_state b) /\
  i_state a = snd (run_queue_consumer bpm file_name writable q) /\
  i_state b = snd (run_queue_consumer bpm file_name writable q).
Proof.
  intros Ha Hb. cbn zeta. rewrite event_loop_iter. cbn [fst snd].
  unfold spawn, run_queue_consumer.
  destruct (iter_resume bpm writable q (start bpm file_name) _ Ha) as [_ Ea].
  destruct (iter_resume bpm writable q (start bpm file_name) _ Hb) as [_ Eb].
  cbn zeta in Ea, Eb. rewrite Ea, Eb. repeat split.
Qed.

Lemma two_instances_same_timeline_witness :
  let q := [(1000%Q, Some (bytes [0; 100; 144; 60; 100]));
            (2000%Q, Some (bytes [7; 228; 128; 60; 0]));
            (3000%Q, None)] in
  let sched := [true; false; false; true; true; false] in
  midi_file (i_state (fst (event_loop 120 true sched (spawn 120 "Track1" q)
                                      (spawn 120 "Track1" q)))) =
  midi_file (i_state (snd (event_loop 120 true sched (spawn 120 "Track1" q)
                                      (spawn 120 "Track1" q)))).
Proof.
  apply (two_instances_same_timeline 120 "Track1" true
           [(1000%Q, Some (bytes [0; 100; 144; 60; 100]));
            (2000%Q, Some (bytes [7; 228; 128; 60; 0]));
            (3000%Q, None)]
           [true; false; false; true; true; false]).
  - simpl. lia.
  - simpl. lia.
Defined.

(** * More on the consumer *)

(** ** What every message keeps *)

Lemma iterated_keeps (bpm : Z) (P : Consumer -> Prop) :
  (forall st tm tp, P st -> P (stamped st tm tp)) ->
  (forall s p v T st st', Dispatched bpm s p v T st st' -> P st -> P st') ->
  forall T_elapsed loc st tr loc' st',
    Iterated bpm T_elapsed loc st tr loc' st' -> P st -> P st'.
Proof.
  intros Hstamp Hdisp T_elapsed loc st tr loc' st' HI.
  induction HI as [loc st | loc st loc1 loc2 st1 st2 s tr HG HI IH]; intros HP.
  - exact HP.
  - apply IH. destruct HG as [d | d s0 p v st1 tm Hch HD].
    + now apply Hstamp.
    + apply (Hdisp _ _ _ _ _ _ HD). now apply Hstamp.
Qed.

Lemma interrupted_keeps (bpm : Z) (P : Consumer -> Prop) :
  (forall st tm tp, P st -> P (stamped st tm tp)) ->
  (forall s p v T st st', Dispatched bpm s p v T st st' -> P st -> P st') ->
  (forall st m, P st -> P (with_sent st m)) ->
  forall T_elapsed loc st st',
    Interrupted bpm T_elapsed loc st st' -> P st -> P st'.
Proof.
  intros Hstamp Hdisp Hsent T_elapsed loc st st' HX.
  induction HX as [loc st d m | loc st loc1 s st1 st' HG HX IH]; intros HP.
  - now apply Hsent, Hstamp.
  - apply IH. destruct HG as [d | d s0 p v st1 tm Hch HD].
    + now apply Hstamp.
    + apply (Hdisp _ _ _ _ _ _ HD). now apply Hstamp.
Qed.

(** The exceptions of a notification. *)
Lemma packet_raises (bpm : Z) (T_elapsed : Q) (data : list byte) (st st' : Consumer)
    (e : exn) :
  packet bpm T_elapsed data st = (Raised e, st') ->
  (e = IndexError /\ exists b, data = [b]) \/ (e = ZeroDivisionError /\ bpm = 0).
Proof.
  intros E.
  destruct (length_cases data) as [H | [[b ->] | [Hm Hlen]]].
  - rewrite (packet_rejected bpm T_elapsed data st H) in E. discriminate E.
  - rewrite packet_one_byte in E. injection E as <- _. left. split; [reflexivity|].
    now exists b.
  - destruct (packet_cases bpm T_elapsed data st Hm Hlen)
      as (h & l & _ & _ & [(tr & loc' & st1 & E1 & _) | (Z0 & st1 & E1 & _)]);
      rewrite E1 in E.
    + discriminate E.
    + injection E as <- _. right. split; [reflexivity | exact Z0].
Qed.

(** A property of the state that the log, the time of the event and the
    three kinds of event keep is kept by every notification; at tempo 0 it
    has to be kept by a message sent to the port too. *)
Lemma packet_keeps (bpm : Z) (P : Consumer -> Prop) :
  (forall st r, P st -> P (with_log st r)) ->
  (forall st tm tp, P st -> P (stamped st tm tp)) ->
  (forall s p v T st st', Dispatched bpm s p v T st st' -> P st -> P st') ->
  (bpm = 0 -> forall st m, P st -> P (with_sent st m)) ->
  forall T_elapsed data st, P st -> P (snd (packet bpm T_elapsed data st)).
Proof.
  intros Hlog Hstamp Hdisp Hsent T_elapsed data st HP.
  destruct (length_cases data) as [H | [[b ->] | [Hm Hlen]]].
  - rewrite (packet_rejected bpm T_elapsed data st H). cbn [snd].
    now apply Hlog, Hlog.
  - rewrite packet_one_byte. cbn [snd]. now apply Hlog.
  - destruct (packet_cases bpm T_elapsed data st Hm Hlen)
      as (h & l & _ & _ & [(tr & loc' & st' & E & HI) | (Z0 & st' & E & HX)]);
      rewrite E; cbn [snd].
    + apply (iterated_keeps bpm P Hstamp Hdisp _ _ _ _ _ _ HI). now apply Hlog.
    + apply (interrupted_keeps bpm P Hstamp Hdisp (Hsent Z0) _ _ _ _ HX).
      now apply Hlog.
Qed.

(** Such a property, when the end of the session keeps it too, holds at
    every point of a session. *)
Lemma while_true_keeps (bpm : Z) (writable : bool) (P : Consumer -> Prop) :
  (forall st r, P st -> P (with_log st r)) ->
  (forall st tm tp, P st -> P (stamped st tm tp)) ->
  (forall s p v T st st', Dispatched bpm s p v T st st' -> P st -> P st') ->
  (bpm = 0 -> forall st m, P st -> P (with_sent st m)) ->
  (forall st, P st -> P (if writable then disconnected st else closed st)) ->
  forall q st, P st -> P (snd (while_true bpm writable q st)).
Proof.
  intros Hlog Hstamp Hdisp Hsent Hend q.
  induction q as [|[T [data|]] q IH]; intros st HP; cbn [while_true].
  - exact HP.
  - rewrite message_packet.
    pose proof (packet_keeps bpm P Hlog Hstamp Hdisp Hsent T data st HP) as HP'.
    destruct (packet bpm T data st) as [[tr | e] st']; cbn [snd] in HP'.
    + specialize (IH st' HP').
      destruct (while_true bpm writable q st') as [[s tr'] st'']. exact IH.
    + exact HP'.
  - rewrite message_disconnect. specialize (Hend st HP).
    destruct writable; exact Hend.
Qed.

(** How a run of the loop can fail. *)
Lemma while_true_failed (bpm : Z) (writable : bool) (q : list Message)
    (st : Consumer) (e : exn) :
  fst (fst (while_true bpm writable q st)) = Failed e ->
  (e = IndexError /\ no_one_byte q = false) \/
  (e = ZeroDivisionError /\ bpm = 0) \/
  (e = OSError /\ writable = false /\ exists T, In (T, None) q).
Proof.
  revert st. induction q as [|[T [data|]] q IH]; intros st; cbn [while_true].
  - discriminate.
  - rewrite message_packet.
    destruct (packet bpm T data st) as [[tr | e'] st'] eqn:E.
    + specialize (IH st').
      destruct (while_true bpm writable q st') as [[s tr'] st'']. cbn [fst] in *.
      intros Hs. destruct (IH Hs) as [[He Hq] | [H | (He & Hw & T' & Hin)]].
      * left. split; [exact He|]. cbn [no_one_byte forallb].
        fold (no_one_byte q). rewrite Hq. apply andb_false_r.
      * right. left. exact H.
      * right. right. repeat split; [exact He | exact Hw |].
        exists T'. now right.
    + cbn [fst]. intros Hs. injection Hs as ->.
      destruct (packet_raises _ _ _ _ _ _ E) as [[He (b & ->)] | H].
      * left. split; [exact He | reflexivity].
      * right. left. exact H.
  - rewrite message_disconnect. destruct writable; cbn [fst]; [discriminate|].
    intros Hs. injection Hs as <-. right. right. repeat split.
    exists T. now left.
Qed.

(** A loop that still waits has not met the end-of-session message. *)
Lemma while_true_waiting (bpm : Z) (writable : bool) (q : list Message)
    (st : Consumer) :
  fst (fst (while_true bpm writable q st)) = Waiting ->
  forall T, ~ In (T, None) q.
Proof.
  revert st. induction q as [|[T [data|]] q IH]; intros st; cbn [while_true].
  - intros _ T' [].
  - rewrite message_packet.
    destruct (packet bpm T data st) as [[tr | e'] st'].
    + specialize (IH st').
      destruct (while_true bpm writable q st') as [[s tr'] st'']. cbn [fst] in *.
      intros Hs T' [Hin | Hin]; [discriminate Hin | exact (IH Hs T' Hin)].
    + discriminate.
  - rewrite message_disconnect. destruct writable; discriminate.
Qed.

Lemma no_one_byte_app (q1 q2 : list Message) :
  no_one_byte (q1 ++ q2) = no_one_byte q1 && no_one_byte q2.
Proof. apply forallb_app. Qed.

(** At a tempo other than 0, with a file that can be opened and no payload
    of one byte, the loop returns at the end-of-session message. *)
Lemma returns_at_end (bpm : Z) (writable : bool) (q1 : list Message) (T_elapsed : Q)
    (st : Consumer) :
  bpm <> 0 -> writable = true ->
  no_one_byte q1 = true ->
  fst (fst (while_true bpm writable (q1 ++ [(T_elapsed, None)]) st)) = Returned.
Proof.
  intros Hbpm Hw Hno.
  destruct (fst (fst (while_true bpm writable (q1 ++ [(T_elapsed, None)]) st)))
    as [| | e] eqn:Hs.
  - exfalso. apply (while_true_waiting _ _ _ _ Hs T_elapsed).
    apply in_or_app. right. now left.
  - reflexivity.
  - exfalso. destruct (while_true_failed _ _ _ _ _ Hs) as [[_ H] | [[_ H] | (_ & H & _)]].
    + rewrite no_one_byte_app, Hno in H. discriminate H.
    + contradiction.
    + rewrite Hw in H. discriminate H.
Qed.

(** Once [T_cycle0] is not 0, no message changes it. *)
Lemma interrupted_T_cycle0 (bpm : Z) (T_elapsed : Q) (loc : Locals)
    (st st' : Consumer) :
  Interrupted bpm T_elapsed loc st st' ->
  Py.eqb (T_cycle0 st) 0 = false -> T_cycle0 st' = T_cycle0 st.
Proof.
  induction 1 as [loc st d m | loc st loc1 s st1 st' HG HX IH]; intros H0.
  - cbn [with_sent stamped T_cycle0]. unfold next_times.
    apply (event_time_later _ _ _ _ H0).
  - destruct (grouped_times _ _ _ _ _ _ _ HG) as (_ & _ & Ec & _).
    destruct (event_time_later _ (N_cycle loc) T_elapsed (s_packet s) H0) as (E1 & _).
    rewrite E1 in Ec. rewrite <- Ec. apply IH. now rewrite Ec.
Qed.

Lemma T_cycle0_kept (bpm : Z) (writable : bool) (q : list Message) (st : Consumer) :
  Py.eqb (T_cycle0 st) 0 = false ->
  T_cycle0 (snd (while_true bpm writable q st)) = T_cycle0 st.
Proof.
  revert st. induction q as [|[T [data|]] q IH]; intros st H0; cbn [while_true].
  - reflexivity.
  - rewrite message_packet.
    assert (HT : T_cycle0 (snd (packet bpm T data st)) = T_cycle0 st).
    { destruct (length_cases data) as [H | [[b ->] | [Hm Hlen]]].
      - rewrite (packet_rejected bpm T data st H). reflexivity.
      - reflexivity.
      - destruct (packet_cases bpm T data st Hm Hlen)
          as (h & l & _ & _ & [(tr & loc' & st' & E & HI) | (Z0 & st' & E & HX)]);
          rewrite E; cbn [snd].
        + destruct (iterated_unwrapper _ _ _ _ _ _ _ HI (fun _ => eq_refl)) as [_ E2].
          rewrite E2. apply (later_timestamps _ _ H0).
        + apply (interrupted_T_cycle0 _ _ _ _ _ HX H0). }
    destruct (packet bpm T data st) as [[tr | e] st']; cbn [snd] in HT.
    + specialize (IH st'). rewrite HT in IH. specialize (IH H0).
      destruct (while_true bpm writable q st') as [[s tr'] st'']. exact IH.
    + exact HT.
  - rewrite message_disconnect. destruct writable; reflexivity.
Qed.

(** ** The two outputs and the pending notes *)

Lemma sent_app (status : Z) (out : list (list Z)) (m : list Z) :
  sent status (out ++ [m]) =
  (sent status out + if (hd 0 m =? status)%Z then 1 else 0)%nat.
Proof.
  unfold sent. rewrite filter_app, length_app. cbn [filter].
  destruct (hd 0 m =? status); reflexivity.
Qed.

Lemma notes_app (f : list FileEvent) (e : FileEvent) :
  notes (f ++ [e]) = (notes f + if is_note e then 1 else 0)%nat.
Proof.
  unfold notes. rewrite filter_app, length_app. cbn [filter].
  destruct (is_note e); reflexivity.
Qed.

Lemma controllers_app (f : list FileEvent) (e : FileEvent) :
  controllers (f ++ [e]) = (controllers f + if is_controller e then 1 else 0)%nat.
Proof.
  unfold controllers. rewrite filter_app, length_app. cbn [filter].
  destruct (is_controller e); reflexivity.
Qed.



(** At tempo 0 the counts differ: the port got the note-off, the Timeline
    did not get the note. *)
Example live_output_at_tempo_zero :
  let st := snd (run_queue_consumer 0 "Track1" true
                   [(1000%Q, Some (bytes [0; 100; 144; 60; 100]));
                    (2000%Q, Some (bytes [8; 76; 128; 60; 0]))]) in
  sent 128 (midi_out st) = 1%nat /\ notes (midi_file st) = 0%nat.
Proof. vm_compute. split; reflexivity. Qed.

Lemma NoDup_snoc {A} (l : list A) (x : A) :
  NoDup l -> ~ In x l -> NoDup (l ++ [x]).
Proof.
  intros Hl Hx. induction Hl as [|y l Hy Hl IH]; cbn [app].
  - constructor; [intros [] | constructor].
  - constructor.
    + intros Hin. apply in_app_or in Hin. destruct Hin as [Hin | [-> | []]].
      * exact (Hy Hin).
      * apply Hx. now left.
    + apply IH. intros Hin. apply Hx. now right.
Qed.

(** X8.  At every point of a session, no two pending notes have the same
    pitch. *)
Theorem pending_pitches_distinct (bpm : Z) (file_name : string) (writable : bool)
    (q : list Message) :
  NoDup (map ev1 (E_ON (snd (run_queue_consumer bpm file_name writable q)))).
Proof.
  unfold run_queue_consumer.
  apply (while_true_keeps bpm writable (fun st => NoDup (map ev1 (E_ON st)))).
  - intros st r H. exact H.
  - intros st tm tp H. exact H.
  - intros s p v T st st' HD H.
    destruct HD as [l1 l2 ev Hs E Hl1 Hev | | Hs Hnone | | | ];
      cbn [E_ON]; try exact H.
    + rewrite E, map_app in H. cbn [map] in H. rewrite map_app.
      apply (NoDup_remove_1 _ _ _ H).
    + rewrite map_app. cbn [map]. apply NoDup_snoc; [exact H|].
      intros Hin. apply in_map_iff in Hin. destruct Hin as (x & Hx & Hin).
      rewrite Forall_forall in Hnone. exact (Hnone x Hin Hx).
  - intros _ st m H. exact H.
  - intros st H. destruct writable; exact H.
  - constructor.
Qed.

(** X9.  No message takes anything back: what is in the Timeline, what was
    sent to the port and what was logged before a run of the loop is still
    there after it, in the same order, before whatever the run added. *)
Theorem outputs_only_grow (bpm : Z) (writable : bool) (q : list Message) (st : Consumer) :
  exists f o g,
    midi_file (snd (while_true bpm writable q st)) = midi_file st ++ f /\
    midi_out (snd (while_true bpm writable q st)) = midi_out st ++ o /\
    logged (snd (while_true bpm writable q st)) = logged st ++ g.
Proof.
  apply (while_true_keeps bpm writable
           (fun st' => exists f o g,
              midi_file st' = midi_file st ++ f /\
              midi_out st' = midi_out st ++ o /\
              logged st' = logged st ++ g)).
  - intros st' r (f & o & g & Hf & Ho & Hg).
    exists f, o, (g ++ [r]). cbn [with_log midi_file midi_out logged].
    rewrite Hg, app_assoc. repeat split; assumption.
  - intros st' tm tp (f & o & g & Hf & Ho & Hg).
    unfold stamped. cbn [midi_file midi_out logged].
    destruct (time_error (tm_DT tm) tp).
    + exists f, o, (g ++ [LogTimeError (tm_N tm) (tm_DT tm) tp]).
      rewrite Hg, app_assoc. repeat split; assumption.
    + exists f, o, g. repeat split; assumption.
  - intros s p v T st1 st2 HD (f & o & g & Hf & Ho & Hg).
    destruct HD; cbn [midi_file midi_out logged];
      rewrite ?Hf, ?Ho, ?Hg, <- ?app_assoc; do 3 eexists; repeat split.
  - intros _ st' m (f & o & g & Hf & Ho & Hg).
    exists f, (o ++ [m]), g. cbn [with_sent midi_file midi_out logged].
    rewrite Ho, app_assoc. repeat split; assumption.
  - intros st' (f & o & g & Hf & Ho & Hg).
    destruct writable; unfold disconnected, closed; cbn [midi_file midi_out logged];
      rewrite Hg, <- app_assoc; do 3 eexists; repeat split; eassumption.
  - exists [], [], []. rewrite !app_nil_r. repeat split.
Qed.

(** ** The end of the session *)

Lemma while_true_file (bpm : Z) (writable : bool) (q : list Message) (st : Consumer) :
  disk st = None -> port_open st = true ->
  match fst (fst (while_true bpm writable q st)) with
  | Returned =>
      disk (snd (while_true bpm writable q st)) =
        Some (midi_file (snd (while_true bpm writable q st))) /\
      port_open (snd (while_true bpm writable q st)) = false
  | Failed OSError =>
      disk (snd (while_true bpm writable q st)) = None /\
      port_open (snd (while_true bpm writable q st)) = false
  | _ =>
      disk (snd (while_true bpm writable q st)) = None /\
      port_open (snd (while_true bpm writable q st)) = true
  end.
Proof.
  revert st. induction q as [|[T [data|]] q IH]; intros st Hd Hp; cbn [while_true].
  - split; assumption.
  - rewrite message_packet.
    assert (HP : disk (snd (packet bpm T data st)) = None /\
                 port_open (snd (packet bpm T data st)) = true).
    { apply (packet_keeps bpm (fun st => disk st = None /\ port_open st = true)).
      - intros st0 r H. exact H.
      - intros st0 tm tp H. exact H.
      - intros s p v T0 st1 st2 HD H. destruct HD; exact H.
      - intros _ st0 m H. exact H.
      - split; assumption. }
    destruct (packet bpm T data st) as [[tr | e] st'] eqn:E; cbn [snd] in HP.
    + specialize (IH st' (proj1 HP) (proj2 HP)).
      destruct (while_true bpm writable q st') as [[s tr'] st'']. exact IH.
    + cbn [fst snd].
      destruct (packet_raises _ _ _ _ _ _ E) as [[-> _] | [-> _]]; exact HP.
  - rewrite message_disconnect.
    destruct writable; cbn [fst snd disconnected closed disk midi_file port_open].
    + split; reflexivity.
    + split; [exact Hd | reflexivity].
Qed.

(** X10.  The file is written only when the consumer returns, that is after
    an end-of-session message with a file that can be opened: then the file
    holds the Timeline as it is at that point and the port is closed.  When
    the file cannot be opened the consumer is left by [OSError] with the
    port closed and no file.  While the consumer waits, or after another
    exception, there is no file and the port is still open. *)
Theorem file_written_only_on_return (bpm : Z) (file_name : string) (writable : bool)
    (q : list Message) :
  let r := run_queue_consumer bpm file_name writable q in
  (fst (fst r) = Returned ->
   writable = true /\
   disk (snd r) = Some (midi_file (snd r)) /\ port_open (snd r) = false) /\
  (fst (fst r) = Failed OSError ->
   writable = false /\ disk (snd r) = None /\ port_open (snd r) = false) /\
  (fst (fst r) <> Returned -> fst (fst r) <> Failed OSError ->
   disk (snd r) = None /\ port_open (snd r) = true).
Proof.
  cbn zeta. unfold run_queue_consumer.
  pose proof (while_true_file bpm writable q (start bpm file_name) eq_refl eq_refl) as H.
  pose proof (while_true_failed bpm writable q (start bpm file_name)) as HF.
  assert (HW : fst (fst (while_true bpm writable q (start bpm file_name))) = Returned ->
               writable = true).
  { intros Hs. destruct writable; [reflexivity|].
    rewrite Hs in H. destruct H as [H _].
    pose proof (while_true_keeps bpm false (fun st => disk st = None)) as K.
    rewrite K in H; try discriminate H; try reflexivity.
    - intros st r H1. exact H1.
    - intros st tm tp H1. exact H1.
    - intros s p v T st st' HD H1. destruct HD; exact H1.
    - intros _ st m H1. exact H1.
    - intros st H1. exact H1. }
  destruct (fst (fst (while_true bpm writable q (start bpm file_name)))) as [| | e].
  - repeat split; try discriminate; intros; apply H.
  - split; [intros _; split; [now apply HW | exact H]|].
    split; [discriminate | contradiction].
  - split; [discriminate|]. split.
    + intros He. injection He as ->.
      destruct (HF OSError eq_refl) as [[He _] | [[He _] | (_ & Hw & _)]];
        try discriminate He.
      split; [exact Hw | exact H].
    + intros _ He. destruct e; try exact H. contradiction.
Qed.

Lemma file_written_only_on_return_witness :
  disk (snd (run_queue_consumer 120 "Track1" false
               [(1000%Q, Some (bytes [0; 100; 144; 60; 100]));
                (2000%Q, None)])) = None /\
  port_open (snd (run_queue_consumer 120 "Track1" false
               [(1000%Q, Some (bytes [0; 100; 144; 60; 100]));
                (2000%Q, None)])) = false.
Proof.
  apply (file_written_only_on_return 120 "Track1" false
           [(1000%Q, Some (bytes [0; 100; 144; 60; 100]));
            (2000%Q, None)]).
  reflexivity.
Defined.



(** ** Exceptions *)



(** The three exceptions of the loop, each on a session of one message. *)
Example three_ways_to_fail :
  fst (fst (run_queue_consumer 120 "Track1" true [(1000%Q, Some (bytes [0]))])) =
    Failed IndexError /\
  fst (fst (run_queue_consumer 0 "Track1" true
              [(1000%Q, Some (bytes [0; 100; 176; 1; 2]))])) =
    Failed ZeroDivisionError /\
  fst (fst (run_queue_consumer 120 "Track1" false [(1000%Q, None)])) =
    Failed OSError.
Proof. vm_compute. repeat split. Qed.

Lemma for_groups_length (bpm : Z) (T_elapsed : Q) (data : list byte)
    (l : list nat) (loc loc' : Locals) (tr : list Stamp) (st st' : Consumer) :
  for_groups bpm T_elapsed data l loc st = (Normal (loc', tr), st') ->
  length tr = length l.
Proof.
  revert loc loc' tr st st'.
  induction l as [|a l IH]; intros loc loc' tr st st'; cbn [for_groups].
  - unfold ret. intros E. injection E as _ <- _. reflexivity.
  - unfold bind at 1.
    destruct (group bpm T_elapsed data a loc st) as [[[loc1 s] | e] st1];
      [|discriminate].
    cbn [fst snd]. unfold bind at 1.
    destruct (for_groups bpm T_elapsed data l loc1 st1) as [[[loc2 tr2] | e] st2] eqn:E2;
      [|discriminate].
    unfold ret. cbn [fst snd]. intros E. injection E as _ <- _.
    cbn [length]. f_equal. apply (IH _ _ _ _ _ E2).
Qed.

Lemma range_length (n : nat) :
  (Z.of_nat n - 1) mod 4 = 0 ->
  length (Py.range 1 (n - 1) 4) = ((n - 1) / 4)%nat.
Proof.
  intros Hn. unfold Py.range. rewrite length_map, length_seq.
  destruct n as [|m]; [discriminate Hn|].
  replace (Z.of_nat (S m) - 1) with (Z.of_nat m) in Hn by lia.
  replace (S m - 1)%nat with m by lia.
  assert (Hm : (m mod 4 = 0)%nat)
    by (apply Nat2Z.inj; rewrite Nat2Z.inj_mod; exact Hn).
  pose proof (Nat.div_mod_eq m 4) as E. rewrite Hm, Nat.add_0_r in E.
  set (k := (m / 4)%nat) in *.
  destruct k as [|k'].
  - rewrite E. reflexivity.
  - replace (m - 1 + 4 - 1)%nat with (2 + S k' * 4)%nat by lia.
    rewrite Nat.div_add by discriminate. reflexivity.
Qed.

Lemma iterated_elapsed (bpm : Z) (T_elapsed : Q) (loc loc' : Locals)
    (tr : list Stamp) (st st' : Consumer) :
  Iterated bpm T_elapsed loc st tr loc' st' ->
  Forall (fun s => s_elapsed s = T_elapsed) tr.
Proof.
  induction 1 as [loc st | loc st loc1 loc2 st1 st2 s tr HG HI IH].
  - constructor.
  - constructor; [|exact IH].
    apply (grouped_times _ _ _ _ _ _ _ HG).
Qed.



(** ** The epoch and the event times *)

Lemma trace_follows_unwrapper (T0 : Q) (tr : list Stamp) (P : Stamp -> Prop) :
  (forall T s, tm_event (event_time T 0 (s_elapsed s) (s_packet s)) = s_event s ->
               P s) ->
  map tm_event (unwrapper T0 (inputs tr)) = events tr ->
  Forall P tr.
Proof.
  intros HP. revert T0. induction tr as [|s tr IH]; intros T0 E.
  - constructor.
  - cbn [inputs events map unwrapper] in E. injection E as E1 E2.
    constructor.
    + apply (HP T0 s E1).
    + apply (IH (tm_cycle0 (event_time T0 0 (s_elapsed s) (s_packet s)))).
      exact E2.
Qed.

(** X3.  From a state whose [T_cycle0] is not 0, no run of the loop changes
    [T_cycle0], and the time of every event of the run is the timestamp that
    section 4.1 of the specification computes from that epoch. *)
Theorem epoch_kept_once_set (bpm : Z) (writable : bool) (q : list Message) (st : Consumer) :
  Py.eqb (T_cycle0 st) 0 = false ->
  T_cycle0 (snd (while_true bpm writable q st)) = T_cycle0 st /\
  Forall (fun s => s_event s = Spec.timestamp (T_cycle0 st) (s_elapsed s) (s_packet s))
         (snd (fst (while_true bpm writable q st))).
Proof.
  intros H. pose proof (while_true_unwrapper bpm writable q st) as E1.
  destruct (later_timestamps _ (inputs (snd (fst (while_true bpm writable q st)))) H)
    as [L1 L2].
  split; [now apply T_cycle0_kept|].
  rewrite L1 in E1. clear L1 L2.
  induction (snd (fst (while_true bpm writable q st))) as [|s tr IH].
  - constructor.
  - cbn [inputs events map fst snd] in E1. injection E1 as E1 E1'.
    constructor; [now symmetry | now apply IH].
Qed.

Lemma epoch_kept_once_set_witness :
  T_cycle0 (snd (while_true 120 true
                   [(2000%Q, Some (bytes [8; 76; 128; 60; 0]));
                    (9500%Q, Some (bytes [3; 24; 144; 62; 90]))]
                   (mkConsumer 900 [(1000%Q, 60, 100)] [] [] true None []))) = 900%Q.
Proof.
  apply (epoch_kept_once_set 120 true
           [(2000%Q, Some (bytes [8; 76; 128; 60; 0]));
            (9500%Q, Some (bytes [3; 24; 144; 62; 90]))]
           (mkConsumer 900 [(1000%Q, 60, 100)] [] [] true None [])).
  reflexivity.
Defined.

Lemma event_time_near (T0 a : Q) (tp : Z) :
  0 <= tp < 8192 ->
  (Qabs (tm_event (event_time T0 0 a tp) - a) <= 4096)%Q.
Proof.
  intros Ht.
  assert (Hlo : (0 <= inject_Z tp)%Q)
    by (change 0%Q with (inject_Z 0); rewrite <- Zle_Qle; lia).
  assert (Hhi : (inject_Z tp < 8192)%Q)
    by (change 8192%Q with (inject_Z 8192); rewrite <- Zlt_Qlt; lia).
  destruct (Py.eqb T0 0) eqn:H0.
  - assert (E : event_time T0 0 a tp = event_time 0 0 a tp)
      by (unfold event_time; rewrite H0; reflexivity).
    rewrite E. destruct (event_time_start a tp Ht) as [_ Ee].
    rewrite Ee. apply Qabs_Qle_condition. split; lra.
  - unfold event_time. rewrite H0. cbn [tm_event].
    pose proof (floordiv_mod (a - T0)) as Hx.
    pose proof (mod_bounds (a - T0)) as HDT.
    set (n := Py.floordiv (a - T0) 8192) in *.
    set (DT := Py.mod_ (a - T0) 8192) in *.
    unfold time_error.
    destruct (Py.ltb 4096 (Qabs (DT - inject_Z tp))) eqn:Eerr.
    + apply ltb_lt in Eerr.
      destruct (Py.ltb DT (inject_Z tp)) eqn:Elt.
      * apply ltb_lt in Elt. rewrite Qabs_neg in Eerr by lra.
        unfold Z.sub. rewrite inject_Z_plus, inject_Z_opp.
        change (inject_Z 1) with 1%Q.
        apply Qabs_Qle_condition. split; lra.
      * apply ltb_ge in Elt. rewrite Qabs_pos in Eerr by lra.
        rewrite inject_Z_plus. change (inject_Z 1) with 1%Q.
        apply Qabs_Qle_condition. split; lra.
    + apply ltb_ge, Qabs_Qle_condition in Eerr.
      apply Qabs_Qle_condition. split; lra.
Qed.

(** X4.  Every event whose clock is a 13-bit value gets a time within
    4096 ms of the arrival time of its packet. *)
Theorem event_time_within_half_cycle (bpm : Z) (file_name : string) (writable : bool)
    (q : list Message) (s : Stamp) :
  In s (snd (fst (run_queue_consumer bpm file_name writable q))) ->
  0 <= s_packet s < 8192 ->
  (Qabs (s_event s - s_elapsed s) <= 4096)%Q.
Proof.
  intros Hin Hs.
  assert (F : Forall (fun s => 0 <= s_packet s < 8192 ->
                               (Qabs (s_event s - s_elapsed s) <= 4096)%Q)
                     (snd (fst (run_queue_consumer bpm file_name writable q)))).
  { apply (trace_follows_unwrapper 0).
    - intros T s0 E Hs0. rewrite <- E. now apply event_time_near.
    - apply (run_queue_consumer_unwrapper bpm file_name writable q). }
  rewrite Forall_forall in F. exact (F s Hin Hs).
Qed.

Lemma event_time_within_half_cycle_witness :
  (Qabs (s_event (mkStamp 5001 5000 1809) - s_elapsed (mkStamp 5001 5000 1809))
   <= 4096)%Q.
Proof.
  apply (event_time_within_half_cycle 120 "Track1" true
           [(5000%Q, Some (bytes [63; 127; 144; 60; 100]));
            (5001%Q, Some (bytes [39; 8; 128; 60; 0]))]).
  - right. left. reflexivity.
  - simpl. lia.
Defined.

(** X5.  In a session whose sub-events carry the times of the device
    wrapped to 13 bits, whose first sub-event fixes an epoch other than 0,
    and in which the host, measured from the epoch, stays within 4096 ms of
    the device, the time of every event is the epoch plus the time of the
    device, not wrapped. *)
Theorem event_times_are_device_times (bpm : Z) (file_name : string) (writable : bool)
    (q : list Message) (a0 : Q) (tau0 : Z) (rest : Scenario) :
  inputs (snd (fst (run_queue_consumer bpm file_name writable q))) =
    sub_events ((a0, tau0) :: rest) ->
  0 <= tau0 < 8192 ->
  Py.eqb (a0 - inject_Z tau0) 0 = false ->
  offset_bounded (a0 - inject_Z tau0) rest = true ->
  Forall2 (fun t e => t == (a0 - inject_Z tau0) + inject_Z (snd e))%Q
          (events (snd (fst (run_queue_consumer bpm file_name writable q))))
          ((a0, tau0) :: rest).
Proof.
  intros Hin Ht H0 Hoff.
  rewrite <- (run_queue_consumer_unwrapper bpm file_name writable q). rewrite Hin.
  apply timestamps_exact; assumption.
Qed.

Lemma event_times_are_device_times_witness :
  Forall2 (fun t e => t == (1000 - inject_Z 0) + inject_Z (snd e))%Q
          (events (snd (fst (run_queue_consumer 120 "Track1" true
             [(1000%Q, Some (bytes [0; 0; 144; 60; 100]));
              (6000%Q, Some (bytes [42; 124; 128; 60; 0]));
              (9500%Q, Some (bytes [6; 40; 176; 1; 2]))]))))
          [(1000%Q, 0); (6000%Q, 5500); (9500%Q, 9000)].
Proof.
  apply (event_times_are_device_times 120 "Track1" true
           [(1000%Q, Some (bytes [0; 0; 144; 60; 100]));
            (6000%Q, Some (bytes [42; 124; 128; 60; 0]));
            (9500%Q, Some (bytes [6; 40; 176; 1; 2]))]
           1000 0 [(6000%Q, 5500); (9500%Q, 9000)]).
  - reflexivity.
  - lia.
  - reflexivity.
  - reflexivity.
Defined.

(** ** The clocks of a packet *)

Lemma grouped_clock (bpm : Z) (T_elapsed : Q) (loc loc' : Locals)
    (s : Stamp) (st st' : Consumer) :
  Grouped bpm T_elapsed loc st loc' s st' ->
  0 <= low0 loc < 128 ->
  s_packet s = clock (high loc') (low0 loc') /\
  0 <= low0 loc' < 128 /\
  clock (high loc) (low0 loc) <= s_packet s.
Proof.
  intros HG Hl.
  assert (H : forall d,
             next_clock loc d =
               clock (high (next_locals loc d (next_times st loc T_elapsed d)))
                     (low0 (next_locals loc d (next_times st loc T_elapsed d))) /\
             0 <= low0 (next_locals loc d (next_times st loc T_elapsed d)) < 128 /\
             clock (high loc) (low0 loc) <= next_clock loc d).
  { intros d. cbn [high low0 next_locals]. unfold next_clock.
    pose proof (land_127_range d) as Hd.
    split; [reflexivity|]. split; [exact Hd|].
    rewrite (clock_eq _ _ Hl), (clock_eq _ _ Hd). unfold rollover.
    destruct (Z.land d 127 <? low0 loc) eqn:E;
      [apply Z.ltb_lt in E | apply Z.ltb_ge in E]; lia. }
  destruct HG as [d | d s0 p v st' tm Hch HD]; cbn [s_packet]; apply H.
Qed.

Lemma iterated_clocks (bpm : Z) (T_elapsed : Q) (loc loc' : Locals)
    (tr : list Stamp) (st st' : Consumer) :
  Iterated bpm T_elapsed loc st tr loc' st' ->
  0 <= low0 loc < 128 ->
  nondecreasingZ (clock (high loc) (low0 loc) :: clocks tr) = true.
Proof.
  induction 1 as [loc st | loc st loc1 loc2 st1 st2 s tr HG HI IH]; intros Hl.
  - reflexivity.
  - destruct (grouped_clock _ _ _ _ _ _ _ HG Hl) as (E & Hl1 & Hle).
    change (nondecreasingZ (clock (high loc) (low0 loc) :: clocks (s :: tr)))
      with ((clock (high loc) (low0 loc) <=? s_packet s)
            && nondecreasingZ (s_packet s :: clocks tr)).
    apply andb_true_iff. split; [now apply Z.leb_le|].
    rewrite E. now apply IH.
Qed.

(** X6.  Within a packet the clock never goes back: the clocks of its
    groups, in order, do not decrease, and none is below the clock of the
    header, [128 * (data[0] & 0x3f) + (data[1] & 0x7f)], which is a 13-bit
    value. *)
Theorem clocks_of_packet_nondecreasing (bpm : Z) (T_elapsed : Q)
    (data : list byte) (h l : byte) (tr : list Stamp) (st st' : Consumer) :
  packet bpm T_elapsed data st = (Normal tr, st') ->
  nth_error data 0 = Some h ->
  nth_error data 1 = Some l ->
  let header := 128 * Z.land (byte_int h) 63 + Z.land (byte_int l) 127 in
  0 <= header < 8192 /\
  nondecreasingZ (header :: clocks tr) = true.
Proof.
  intros E Hh Hl header.
  pose proof (land_127_range (byte_int l)) as Hlow.
  assert (Hhigh : 0 <= Z.land (byte_int h) 63 < 64).
  { change 63 with (Z.ones 6). rewrite Z.land_ones by lia.
    apply Z.mod_pos_bound. reflexivity. }
  split; [unfold header; lia|].
  destruct (length_cases data) as [H | [[b ->] | [Hm Hlen]]].
  - rewrite (packet_rejected bpm T_elapsed data st H) in E.
    injection E as <- _. reflexivity.
  - discriminate Hl.
  - destruct (packet_cases bpm T_elapsed data st Hm Hlen)
      as (h' & l' & Hh' & Hl' & [(tr' & loc' & st1 & E' & HI) | (_ & st1 & E' & _)]);
      rewrite E' in E; [|discriminate E].
    injection E as -> _.
    rewrite Hh in Hh'. injection Hh' as <-.
    rewrite Hl in Hl'. injection Hl' as <-.
    pose proof (iterated_clocks _ _ _ _ _ _ _ HI Hlow) as HC.
    cbn [high low0] in HC. rewrite (clock_eq _ _ Hlow) in HC. exact HC.
Qed.

Lemma clocks_of_packet_nondecreasing_witness :
  nondecreasingZ
    ((128 * Z.land (byte_int "062") 63 + Z.land (byte_int "064") 127)
       :: [8000; 8114]) = true.
Proof.
  apply (clocks_of_packet_nondecreasing 120 100
           (bytes [62; 64; 176; 1; 2; 50; 176; 1; 3]) "062"%byte "064"%byte
           [mkStamp 100 8000 100; mkStamp 100 8114 214] (start 120 "Track1")
           (snd (packet 120 100 (bytes [62; 64; 176; 1; 2; 50; 176; 1; 3])
                        (start 120 "Track1")))).
  - reflexivity.
  - reflexivity.
  - reflexivity.
Defined.

(** ** The groups that go to the outputs, and those that do not *)

Section GroupStates.

Variable bpm : Z.
Hypothesis Hbpm : bpm <> 0.
Variables (T_elapsed : Q) (data : list byte) (a : nat).
Variables (d s : byte).
Hypothesis Hd : nth_error data a = Some d.
Hypothesis Hs : nth_error data (a + 1) = Some s.

Lemma group_ignored (loc : Locals) (st : Consumer) :
  Z.land (byte_int s) 15 <> 0 \/
  (Z.land (byte_int s) 240 <> 128 /\
   Z.land (byte_int s) 240 <> 144 /\
   Z.land (byte_int s) 240 <> 176) ->
  let tm := next_times st loc T_elapsed (byte_int d) in
  group bpm T_elapsed data a loc st =
  (Normal (next_locals loc (byte_int d) tm,
           mkStamp T_elapsed (next_clock loc (byte_int d)) (tm_event tm)),
   stamped st tm (next_clock loc (byte_int d))).
Proof.
  intros H tm.
  destruct (Z.eq_dec (Z.land (byte_int s) 15) 0) as [Hch | Hch].
  - destruct H as [H | (H1 & H2 & H3)]; [contradiction|].
    rewrite (group_channel0 bpm T_elapsed data a d s Hd Hs loc st Hch). fold tm.
    unfold dispatch. rewrite (getitem_some _ _ _ Hs). unfold bind at 1, ret at 1.
    apply Z.eqb_neq in H1, H2, H3. rewrite H1, H2, H3. reflexivity.
  - apply (group_skipped bpm T_elapsed data a d s Hd Hs loc st Hch).
Qed.

Variables (p v : byte).
Hypothesis Hp : nth_error data (a + 2) = Some p.
Hypothesis Hv : nth_error data (a + 3) = Some v.
Hypothesis Hch : Z.land (byte_int s) 15 = 0.

Lemma group_note_on (loc : Locals) (st : Consumer) :
  Z.land (byte_int s) 240 = 144 ->
  Forall (fun x => ev1 x <> byte_int p) (E_ON st) ->
  let tm := next_times st loc T_elapsed (byte_int d) in
  let st1 := stamped st tm (next_clock loc (byte_int d)) in
  group bpm T_elapsed data a loc st =
  (Normal (next_locals loc (byte_int d) tm,
           mkStamp T_elapsed (next_clock loc (byte_int d)) (tm_event tm)),
   mkConsumer (T_cycle0 st1) (E_ON st ++ [(tm_event tm, byte_int p, byte_int v)])
     (midi_file st) (midi_out st ++ [[144; byte_int p; byte_int v]])
     (port_open st) (disk st) (logged st1)).
Proof.
  intros Hst Hnone tm st1.
  rewrite (group_channel0 bpm T_elapsed data a d s Hd Hs loc st Hch). fold tm.
  rewrite (dispatch_note_on bpm data a s Hs _ Hst).
  rewrite (note_on_fresh data a (tm_event tm) p v Hp Hv
             (stamped st tm (next_clock loc (byte_int d))) Hnone).
  reflexivity.
Qed.

Lemma group_note_off (loc : Locals) (st : Consumer) (l1 l2 : list NoteOn) (ev : NoteOn) :
  Z.land (byte_int s) 240 = 128 ->
  E_ON st = l1 ++ ev :: l2 ->
  Forall (fun x => ev1 x <> byte_int p) l1 ->
  ev1 ev = byte_int p ->
  let tm := next_times st loc T_elapsed (byte_int d) in
  let st1 := stamped st tm (next_clock loc (byte_int d)) in
  group bpm T_elapsed data a loc st =
  (Normal (next_locals loc (byte_int d) tm,
           mkStamp T_elapsed (next_clock loc (byte_int d)) (tm_event tm)),
   mkConsumer (T_cycle0 st1) (l1 ++ l2)
     (midi_file st ++
        [Note 0 0 (byte_int p) (ev0 ev / quarter_ms bpm)
              ((tm_event tm - ev0 ev) / quarter_ms bpm) (ev2 ev)])
     (midi_out st ++ [[128; byte_int p; byte_int v]])
     (port_open st) (disk st) (logged st1)).
Proof.
  intros Hst E Hl1 Hev tm st1.
  rewrite (group_channel0 bpm T_elapsed data a d s Hd Hs loc st Hch). fold tm.
  rewrite (dispatch_note_off bpm data a s Hs _ Hst).
  rewrite (note_off_matched bpm Hbpm data a (tm_event tm) s p v Hs Hp Hv l1 l2 ev
             (stamped st tm (next_clock loc (byte_int d))) E Hl1 Hev).
  rewrite Hch, Hev. reflexivity.
Qed.

Lemma group_controller (loc : Locals) (st : Consumer) :
  Z.land (byte_int s) 240 = 176 ->
  let tm := next_times st loc T_elapsed (byte_int d) in
  let st1 := stamped st tm (next_clock loc (byte_int d)) in
  group bpm T_elapsed data a loc st =
  (Normal (next_locals loc (byte_int d) tm,
           mkStamp T_elapsed (next_clock loc (byte_int d)) (tm_event tm)),
   mkConsumer (T_cycle0 st1) (E_ON st)
     (midi_file st ++
        [ControllerEvent 0 0 (tm_event tm / quarter_ms bpm) (byte_int p) (byte_int v)])
     (midi_out st ++ [[176; byte_int p; byte_int v]])
     (port_open st) (disk st) (logged st1)).
Proof.
  intros Hst tm st1.
  rewrite (group_channel0 bpm T_elapsed data a d s Hd Hs loc st Hch). fold tm.
  unfold dispatch. rewrite (getitem_some _ _ _ Hs). unfold bind at 1, ret at 1.
  rewrite Hst. cbn [Z.eqb Pos.eqb].
  rewrite (controller_eq bpm Hbpm data a (tm_event tm) s p v Hs Hp Hv
             (stamped st tm (next_clock loc (byte_int d)))).
  rewrite Hch. reflexivity.
Qed.

End GroupStates.

(** X12.  A group of a channel other than 0, and a group of channel 0 whose
    status is none of 0x80, 0x90 and 0xB0, goes to neither output and leaves
    the pending notes alone; the clock of the packet and the time of the
    event are computed as for any group.  Its two data bytes are not read. *)
Theorem other_groups_only_advance_clock (bpm : Z) (T_elapsed : Q)
    (data : list byte) (a : nat) (d s : byte) (loc : Locals) (st : Consumer) :
  nth_error data a = Some d ->
  nth_error data (a + 1) = Some s ->
  Z.land (byte_int s) 15 <> 0 \/
  (Z.land (byte_int s) 240 <> 128 /\
   Z.land (byte_int s) 240 <> 144 /\
   Z.land (byte_int s) 240 <> 176) ->
  let tm := next_times st loc T_elapsed (byte_int d) in
  exists st',
    group bpm T_elapsed data a loc st =
      (Normal (next_locals loc (byte_int d) tm,
               mkStamp T_elapsed (next_clock loc (byte_int d)) (tm_event tm)),
       st') /\
    T_cycle0 st' = tm_cycle0 tm /\
    E_ON st' = E_ON st /\
    midi_file st' = midi_file st /\
    midi_out st' = midi_out st.
Proof.
  intros Hd Hs H tm. eexists. split.
  - apply (group_ignored bpm T_elapsed data a d s Hd Hs loc st H).
  - repeat split.
Qed.

Lemma other_groups_only_advance_clock_witness :
  exists st',
    fst (group 120 1000 (bytes [0; 100; 145]) 1 (mkLocals 0 100 0)
               (start 120 "Track1")) =
      Normal (mkLocals 0 100 0, mkStamp 1000 100 1000) /\
    st' = snd (group 120 1000 (bytes [0; 100; 145]) 1 (mkLocals 0 100 0)
                     (start 120 "Track1")) /\
    midi_out st' = [].
Proof.
  destruct (other_groups_only_advance_clock 120 1000 (bytes [0; 100; 145]) 1
              "100"%byte "145"%byte (mkLocals 0 100 0) (start 120 "Track1"))
    as (st' & E & _ & _ & _ & HO).
  - reflexivity.
  - reflexivity.
  - left. vm_compute. discriminate.
  - exists st'. rewrite E. repeat split. exact HO.
Defined.

(** X13.  A note-on of channel 0 for a pitch without a pending note goes to
    the live output as it is and becomes the last pending note, with the
    time of the event, the pitch and the velocity; the Timeline is not
    touched. *)
Theorem note_on_becomes_pending (bpm : Z) (T_elapsed : Q)
    (data : list byte) (a : nat) (d s p v : byte) (loc : Locals) (st : Consumer) :
  nth_error data a = Some d ->
  nth_error data (a + 1) = Some s ->
  nth_error data (a + 2) = Some p ->
  nth_error data (a + 3) = Some v ->
  Z.land (byte_int s) 15 = 0 ->
  Z.land (byte_int s) 240 = 144 ->
  Forall (fun x => ev1 x <> byte_int p) (E_ON st) ->
  exists loc' T_packet T_event st',
    group bpm T_elapsed data a loc st =
      (Normal (loc', mkStamp T_elapsed T_packet T_event), st') /\
    E_ON st' = E_ON st ++ [(T_event, byte_int p, byte_int v)] /\
    midi_out st' = midi_out st ++ [[144; byte_int p; byte_int v]] /\
    midi_file st' = midi_file st.
Proof.
  intros Hd Hs Hp Hv Hch Hst Hnone. do 4 eexists. split.
  - apply (group_note_on bpm T_elapsed data a d s Hd Hs p v Hp Hv Hch loc st Hst Hnone).
  - repeat split.
Qed.

Lemma note_on_becomes_pending_witness :
  exists loc' T_packet T_event st',
    group 120 1000 (bytes [0; 100; 144; 60; 100]) 1 (mkLocals 0 100 0)
      (start 120 "Track1") = (Normal (loc', mkStamp 1000 T_packet T_event), st') /\
    E_ON st' = [(T_event, 60, 100)].
Proof.
  destruct (note_on_becomes_pending 120 1000 (bytes [0; 100; 144; 60; 100]) 1
              "100"%byte "144"%byte "060"%byte "100"%byte (mkLocals 0 100 0)
              (start 120 "Track1"))
    as (loc' & tp & te & st' & E & HE & _); try reflexivity.
  - constructor.
  - exists loc', tp, te, st'. split; [exact E | exact HE].
Defined.





(** ** The producer and the consumer together *)

Lemma waits_without_end (bpm : Z) (writable : bool) (q : list Message) (st : Consumer) :
  forallb (fun m => match snd m with Some _ => true | None => false end) q = true ->
  fst (fst (while_true bpm writable q st)) <> Returned.
Proof.
  revert st. induction q as [|[T [data|]] q IH]; intros st Hq; cbn [while_true].
  - discriminate.
  - cbn [forallb snd] in Hq. rewrite message_packet.
    destruct (packet bpm T data st) as [[tr | e] st'].
    + specialize (IH st' Hq).
      destruct (while_true bpm writable q st') as [[s tr'] st'']. exact IH.
    + discriminate.
  - discriminate Hq.
Qed.

(** The consumer of a producer that is left by an exception is cancelled
    before it got a message. *)
Lemma main_not_linked (bpm : Z) (file_name : string) (writable : bool) (link : Link)
    (T_start : Q) (hs : list Happening) :
  link <> Linked ->
  main bpm file_name writable link T_start hs =
  (Failed CancelledError, [], start bpm file_name).
Proof. destruct link; [reflexivity | reflexivity | contradiction]. Qed.

Lemma main_linked (bpm : Z) (file_name : string) (writable : bool)
    (T_start : Q) (hs : list Happening) :
  main bpm file_name writable Linked T_start hs =
  while_true bpm writable (fst (connected T_start hs)) (start bpm file_name).
Proof. reflexivity. Qed.

Lemma Link_eq_dec (x y : Link) : {x = y} + {x <> y}.
Proof. decide equality. Qed.

Lemma connected_queue (T_start : Q) (hs : list Happening) :
  if snd (connected T_start hs)
  then exists q1 T_elapsed,
         fst (connected T_start hs) = q1 ++ [(T_elapsed, None)] /\
         no_one_byte q1 = no_one_byte (fst (connected T_start hs))
  else forallb (fun m => match snd m with Some _ => true | None => false end)
               (fst (connected T_start hs)) = true.
Proof.
  induction hs as [|[now data | now |] hs IH]; cbn [connected].
  - reflexivity.
  - destruct (connected T_start hs) as [q ok]. cbn [fst snd] in *.
    destruct ok.
    + destruct IH as (q1 & T & -> & Hno).
      exists ((1000 * (now - T_start), Some data)%Q :: q1), T.
      split; [reflexivity|].
      cbn [app no_one_byte forallb]. fold (no_one_byte q1).
      fold (no_one_byte (q1 ++ [(T, None)])). now rewrite Hno.
    + cbn [forallb snd]. exact IH.
  - exists [], ((now - T_start) * 1000)%Q. split; reflexivity.
  - reflexivity.
Qed.


